(** * hope-haven admin dashboards: analytics aggregation and RSVP filtering

    A shallow embedding of the two admin components

    - [src/components/admin/AnalyticsDashboard.tsx] ([fetchAnalytics]) and
    - the registrations view ([RSVPManagement], [filteredRSVPs]),

    followed by the properties their specification states about them.

    Conventions.  Rows returned by the data store are records; a JavaScript
    array is a [list]; [Array.prototype.filter] is stdpp's [filter] on a
    decidable predicate; [===] on strings is decidable equality on [string];
    [Array.prototype.reduce] with an initial value is [fold_left].  Array
    lengths and the counters derived from them are [nat].  The numbers the
    code computes with beyond counting, the [registered] values with their
    sum and the percentage [Math.round((count / total) * 100)], are binary64
    floats ([PrimFloat]), as JavaScript numbers are.  The object that holds
    the category counters is an object created by [{}]: it has its own
    properties, in creation order, and inherits from [Object.prototype]. *)

From Stdlib Require Import ZArith Ascii String PrimFloat Uint63 SpecFloat FloatOps
  FloatAxioms Sorted.
From stdpp Require Import base list strings pretty sorting.

Local Open Scope string_scope.
Local Open Scope list_scope.
Local Open Scope nat_scope.

(** ** Rows of the data store *)

Module BlogPost.
(** [blog_posts]: the columns the dashboard selects. *)
Record t : Type := mk {
  id : string;
  title : string;
  category : string;
  status : string;
  created_at : Z
}.
End BlogPost.

Module Comment.
(** [comments]. *)
Record t : Type := mk {
  id : string;
  status : string;
  blog_post_id : string
}.
End Comment.

Module Event.
(** [events]. *)
Record t : Type := mk {
  id : string;
  title : string;
  registered : float
}.
End Event.

Module RSVP.
(** [interface RSVP] of the registrations view; [events] is the joined
    event, of which only the title is selected. *)
Record t : Type := mk {
  id : string;
  name : string;
  email : string;
  phone : string;
  created_at : string;
  event_id : string;
  events : string
}.
End RSVP.

(** ** Registrations view *)

(** [const filteredRSVPs = selectedEvent === "all" ? rsvps
      : rsvps.filter(rsvp => rsvp.event_id === selectedEvent)] *)
Definition filteredRSVPs (selectedEvent : string) (rsvps : list RSVP.t) : list RSVP.t :=
  if decide (selectedEvent = "all")
  then rsvps
  else filter (λ rsvp, RSVP.event_id rsvp = selectedEvent) rsvps.

(** ** State of the analytics dashboard *)

Module BlogStats.
Record t : Type := mk { total : nat; published : nat; draft : nat }.
End BlogStats.

Module CommentStats.
Record t : Type := mk { total : nat; approved : nat; pending : nat }.
End CommentStats.

Module EventStats.
Record t : Type := mk { total : nat; totalRegistrations : float }.
End EventStats.

(** The argument of [setBlogStats] (lines 28-32). *)
Definition blogStatsOf (blogs : list BlogPost.t) : BlogStats.t :=
  {| BlogStats.total := length blogs;
     BlogStats.published := length (filter (λ b, BlogPost.status b = "published") blogs);
     BlogStats.draft := length (filter (λ b, BlogPost.status b = "draft") blogs) |}.

(** The argument of [setCommentStats] (lines 41-45). *)
Definition commentStatsOf (comments : list Comment.t) : CommentStats.t :=
  {| CommentStats.total := length comments;
     CommentStats.approved := length (filter (λ c, Comment.status c = "approved") comments);
     CommentStats.pending := length (filter (λ c, Comment.status c = "pending") comments) |}.

(** The argument of [setEventStats] (lines 54-57):
    [events.reduce((sum, e) => sum + e.registered, 0)], where [+] is the
    addition of binary64 numbers. *)
Definition eventStatsOf (events : list Event.t) : EventStats.t :=
  {| EventStats.total := length events;
     EventStats.totalRegistrations :=
       fold_left (λ sum e, (sum + Event.registered e)%float) events 0%float |}.

(** ** JavaScript numbers *)

(** The number that the integer [z] denotes: [z] itself when it is
    representable, the nearest binary64 number (ties to even) otherwise. *)
Definition number_of_Z (z : Z) : float :=
  SF2Prim (binary_normalize prec emax z 0 false).

(** The integer that a number is, if it is one. *)
Definition Z_of_number (x : float) : option Z :=
  match Prim2SF x with
  | S754_zero _ => Some 0%Z
  | S754_finite s m e =>
      let magnitude :=
        if (0 <=? e)%Z then Some (Z.pos m * 2 ^ e)%Z
        else if (Z.pos m mod 2 ^ (- e) =? 0)%Z then Some (Z.pos m / 2 ^ (- e))%Z
        else None in
      (λ v, if s then (- v)%Z else v) <$> magnitude
  | _ => None
  end.







(** An array length or counter as a JavaScript number.  Exact below [2^53];
    array lengths stay below [2^32]. *)
Definition number_of_nat (n : nat) : float :=
  PrimFloat.of_uint63 (Uint63.of_Z (Z.of_nat n)).

(** [Math.round]: the integer closest to [x], a tie going towards [+∞];
    NaN, the infinities and the zeros are returned unchanged, and a result
    of zero keeps the sign of [x].  The value of a finite non-zero [x] is
    [± m * 2^e]; for [e < 0] the result is [floor (x + 1/2)], computed
    exactly on integers. *)
Definition Math_round (x : float) : float :=
  match Prim2SF x with
  | S754_finite s m e =>
      if (0 <=? e)%Z then x
      else
        let k := (- e)%Z in
        let twice := if s then (- (2 * Z.pos m))%Z else (2 * Z.pos m)%Z in
        let n := ((twice + 2 ^ k) / 2 ^ (k + 1))%Z in
        if (n =? 0)%Z then (if s then (-0)%float else 0%float)
        else if (n <? 0)%Z then (- PrimFloat.of_uint63 (Uint63.of_Z (- n)))%float
        else PrimFloat.of_uint63 (Uint63.of_Z n)
  | _ => x
  end.

(** ** A JavaScript object used as a table of counters

    [categoryCounts] starts as [{}] and is filled by the assignments
    [acc[k] = (acc[k] || 0) + 1].  Such an object has its own properties,
    kept here in the order they were created, and inherits the members of
    [Object.prototype]: reading a key that is not an own property finds the
    inherited member, if there is one.  The inherited members are functions,
    except [__proto__], an accessor whose getter returns [Object.prototype]
    and whose setter ignores a value that is neither an object nor [null]. *)

(** The members of [Object.prototype] that are functions. *)
Definition Object_prototype_methods : list string :=
  ["constructor"; "hasOwnProperty"; "isPrototypeOf"; "propertyIsEnumerable";
   "toLocaleString"; "toString"; "valueOf";
   "__defineGetter__"; "__defineSetter__"; "__lookupGetter__"; "__lookupSetter__"].

(** What a read can find up the prototype chain: the function
    [Object.prototype[member]], or [Object.prototype] itself (through
    [__proto__]). *)
Inductive Inherited : Type :=
  | Method (member : string)
  | ObjectPrototype.

(** The values the counters take.  A counter is a number, unless its key
    names an inherited member: adding 1 to a function or to
    [Object.prototype] concatenates strings, so the counter is then the text
    of the inherited value ([String(Object.prototype[member])], or
    ["[object Object]"]) followed by [ones] characters ["1"]. *)
Inductive Count : Type :=
  | Number (n : nat)
  | Text (source : Inherited) (ones : nat).

(** The result of reading [o[k]]. *)
Inductive JsValue : Type :=
  | Undefined
  | Primitive (c : Count)
  | Inherits (i : Inherited).

(** The own properties, in creation order. *)
Abbreviation JsObject := (list (string * Count)) (only parsing).

Fixpoint own_property (o : JsObject) (k : string) : option Count :=
  match o with
  | [] => None
  | (k', c) :: o' => if decide (k' = k) then Some c else own_property o' k
  end.

(** [o[k]]. *)
Definition obj_get (o : JsObject) (k : string) : JsValue :=
  match own_property o k with
  | Some c => Primitive c
  | None =>
      if decide (k ∈ Object_prototype_methods) then Inherits (Method k)
      else if decide (k = "__proto__") then Inherits ObjectPrototype
      else Undefined
  end.

Fixpoint obj_update (o : JsObject) (k : string) (c : Count) : JsObject :=
  match o with
  | [] => []
  | (k', c') :: o' =>
      if decide (k' = k) then (k', c) :: o' else (k', c') :: obj_update o' k c
  end.

(** [o[k] = c], for a number or a string [c]: the setter of [__proto__]
    ignores it; an own property changes its value and keeps its place; any
    other key, inherited or not, becomes a new own property. *)
Definition obj_set (o : JsObject) (k : string) (c : Count) : JsObject :=
  if decide (k = "__proto__") then o
  else match own_property o k with
       | Some _ => obj_update o k c
       | None => o ++ [(k, c)]
       end.

(** [(x || 0) + 1]: [undefined] and [0] are falsy, so the sum is [0 + 1]; a
    non-zero number is incremented; a string, a function and an object are
    truthy, and adding 1 to them appends ["1"] to their text. *)
Definition or_zero_plus_one (x : JsValue) : Count :=
  match x with
  | Undefined => Number 1
  | Primitive (Number n) => Number (n + 1)
  | Primitive (Text i ones) => Text i (ones + 1)
  | Inherits i => Text i 1
  end.

(** [ToNumber], which a division applies to its operands: a counter that is
    a text is not a numeral. *)
Definition to_number (c : Count) : float :=
  match c with
  | Number n => number_of_nat n
  | Text _ _ => nan
  end.

Definition digit_of (c : ascii) : option N :=
  let n := N_of_ascii c in
  if ((48 <=? n) && (n <=? 57))%N then Some (n - 48)%N else None.

Fixpoint decimal (acc : N) (s : string) : option N :=
  match s with
  | EmptyString => Some acc
  | String c s' =>
      match digit_of c with
      | Some d => decimal (acc * 10 + d)%N s'
      | None => None
      end
  end.

(** A property key is an array index when it is the canonical decimal
    numeral of an integer in [0, 2^32 - 2]. *)
Definition array_index (k : string) : option N :=
  match k with
  | EmptyString => None
  | String c _ =>
      if decide (k = "0") then Some 0%N
      else if decide (c = "0"%char) then None
      else match decimal 0 k with
           | Some n => if (n <? 4294967295)%N then Some n else None
           | None => None
           end
  end.

(** The order in which the own properties are enumerated: the keys that are
    array indices first, in ascending numeric order, then the other keys in
    the order they were created. *)
Definition created_before (o : JsObject) (k k' : string) : Prop :=
  ∃ i j, o.*1 !! i = Some k ∧ o.*1 !! j = Some k' ∧ i < j.

Definition listed_before (o : JsObject) (e e' : string * Count) : Prop :=
  match array_index e.1, array_index e'.1 with
  | Some n, Some n' => (n < n')%N
  | Some _, None => True
  | None, Some _ => False
  | None, None => created_before o e.1 e'.1
  end.

(** [entries] is an enumeration of the own properties of [o] in that
    order. *)
Definition enumerates (o : JsObject) (entries : list (string * Count)) : Prop :=
  entries ≡ₚ o ∧ StronglySorted (listed_before o) entries.

Definition index_before (e e' : string * Count) : bool :=
  match array_index e.1, array_index e'.1 with
  | Some n, Some n' => (n <? n')%N
  | _, _ => false
  end.

Fixpoint insert_by_index (e : string * Count) (l : list (string * Count))
  : list (string * Count) :=
  match l with
  | [] => [e]
  | e' :: l' => if index_before e e' then e :: l else e' :: insert_by_index e l'
  end.

(** [Object.entries(o)]. *)
Definition Object_entries (o : JsObject) : list (string * Count) :=
  foldr insert_by_index [] (filter (λ e, is_Some (array_index e.1)) o)
  ++ filter (λ e, array_index e.1 = None) o.

(** [x || 0] on a length that may be [undefined]. *)
Definition or_zero (x : option nat) : nat :=
  match x with
  | Some n => if decide (n = 0) then 0 else n
  | None => 0
  end.

(** ** Category performance (lines 97-111) *)

Module CategoryPerformance.
Record t : Type := mk { name : string; views : Count; percentage : float }.
End CategoryPerformance.

(** The reducer [(acc, post) =>
      { acc[post.category] = (acc[post.category] || 0) + 1; return acc; }]. *)
Definition count_step (acc : JsObject) (post : BlogPost.t) : JsObject :=
  obj_set acc (BlogPost.category post)
          (or_zero_plus_one (obj_get acc (BlogPost.category post))).

(** [allPosts.reduce(..., {})] *)
Definition categoryCounts (allPosts : list BlogPost.t) : JsObject :=
  fold_left count_step allPosts [].

(** The operands [(count, total)] of the divisions [count / total] that the
    mapping over [Object.entries(categoryCounts)] evaluates, one per entry. *)
Definition divisions (allPosts : list BlogPost.t) : list (Count * nat) :=
  let total := length allPosts in
  map (λ entry, (entry.2, total)) (Object_entries (categoryCounts allPosts)).

(** The callback [([name, count]) => ({ name, views: count,
      percentage: Math.round((count / total) * 100) })]. *)
Definition categoryEntry (total : nat) (entry : string * Count) : CategoryPerformance.t :=
  {| CategoryPerformance.name := entry.1;
     CategoryPerformance.views := entry.2;
     CategoryPerformance.percentage :=
       Math_round (to_number entry.2 / number_of_nat total * 100)%float |}.

(** [Object.entries(categoryCounts).map(...)] *)
Definition categoryData (allPosts : list BlogPost.t) : list CategoryPerformance.t :=
  map (categoryEntry (length allPosts)) (Object_entries (categoryCounts allPosts)).

(** The results that the enumeration order of own properties allows for
    [categoryData]: the callback mapped over an enumeration of the
    counters. *)
Definition categoryData_outcome (allPosts : list BlogPost.t)
    (result : list CategoryPerformance.t) : Prop :=
  ∃ entries, enumerates (categoryCounts allPosts) entries ∧
             result = map (categoryEntry (length allPosts)) entries.

(** The posts of category [c]. *)
Definition group (c : string) (allPosts : list BlogPost.t) : list BlogPost.t :=
  filter (λ p, BlogPost.category p = c) allPosts.

(** The counter of a category with [n] posts, [n] at least 1. *)
Definition count_of (c : string) (n : nat) : Count :=
  if decide (c ∈ Object_prototype_methods) then Text (Method c) n else Number n.

(** The number of posts a counter has counted: its value when it is a
    number, the number of characters ["1"] appended when it is a text. *)
Definition posts_counted (c : Count) : nat :=
  match c with
  | Number n => n
  | Text _ ones => ones
  end.

(** Rounding half up of the exact quotient [100 * count / total], on
    integers: [floor (100 * count / total + 1/2)]. *)
Definition round_half_up_percent (count total : nat) : Z :=
  ((200 * Z.of_nat count + Z.of_nat total) / (2 * Z.of_nat total))%Z.

(** ** The data store client

    A read [await supabase.from(..).select(..)...] ends in one of three
    ways: it resolves to [{ data: rows }], it resolves to
    [{ data: null, error }], or the awaited request rejects. *)

Inductive QueryError : Type := mkQueryError (message : string).

Inductive Response (A : Type) : Type :=
  | Data (rows : list A)
  | NoData
  | Throws (error : QueryError).
Arguments Data {A} rows.
Arguments NoData {A}.
Arguments Throws {A} error.

(** What awaiting a promise gives: its value, its rejection, or nothing
    when the promise never settles. *)
Inductive Awaited (A : Type) : Type :=
  | Resolves (value : A)
  | Rejects (reason : QueryError)
  | Pending.
Arguments Resolves {A} value.
Arguments Rejects {A} reason.
Arguments Pending {A}.

(** The reads [fetchAnalytics] issues, each with its response, and the
    order in which the per-post lookups handed to [Promise.all] settle
    (positions in the array of promises). *)
Record Backend : Type := mkBackend {
  blog_posts_status : Response BlogPost.t;
  comments_status : Response Comment.t;
  events_registered : Response Event.t;
  recent_published_posts : Response BlogPost.t;
  approved_comments_of : string → Response Comment.t;
  published_posts_category : Response BlogPost.t;
  completion_order : list nat
}.

(** ** Top posts (lines 73-89) *)

Module TopPost.
Record t : Type := mk { title : string; comments : nat }.
End TopPost.

(** The async callback of [posts.map]: the promise it returns is fulfilled
    with [{ title: post.title, comments: comments?.length || 0 }], or
    rejected when the awaited lookup rejects. *)
Definition countApprovedComments (supabase : Backend) (post : BlogPost.t)
  : Awaited TopPost.t :=
  match approved_comments_of supabase (BlogPost.id post) with
  | Data comments =>
      Resolves {| TopPost.title := BlogPost.title post;
                  TopPost.comments := or_zero (Some (length comments)) |}
  | NoData =>
      Resolves {| TopPost.title := BlogPost.title post;
                  TopPost.comments := or_zero None |}
  | Throws error => Rejects error
  end.

(** [Promise.all]: the promises settle one at a time, in the order
    [order]; a fulfilment stores its value at the promise's own index and
    decrements the count of promises still awaited, resolving with the
    array of values when it reaches zero; the first rejection rejects the
    whole.  A promise settles once: an index that comes again, or that is
    out of range, changes nothing. *)
Fixpoint settle_all {A} (promises : list (Awaited A)) (order : list nat)
    (values : list (option A)) (remaining : nat) : Awaited (list A) :=
  match order with
  | [] => Pending
  | i :: order' =>
      match values !! i, promises !! i with
      | Some None, Some (Resolves v) =>
          let values' := <[i := Some v]> values in
          match remaining with
          | 1 => Resolves (omap id values')
          | _ => settle_all promises order' values' (remaining - 1)
          end
      | Some None, Some (Rejects e) => Rejects e
      | _, _ => settle_all promises order' values remaining
      end
  end.

Definition Promise_all {A} (promises : list (Awaited A)) (order : list nat)
  : Awaited (list A) :=
  match promises with
  | [] => Resolves []
  | _ => settle_all promises order (replicate (length promises) None) (length promises)
  end.

(** ** The component and its async effect *)

(** The [useState] cells of [AnalyticsDashboard] with their initial values,
    and what [console.error] has written. *)
Record Dashboard : Type := mkDashboard {
  blogStats : BlogStats.t;
  commentStats : CommentStats.t;
  eventStats : EventStats.t;
  topPosts : list TopPost.t;
  categoryPerformance : list CategoryPerformance.t;
  loading : bool;
  console : list QueryError
}.

Definition initialDashboard : Dashboard :=
  {| blogStats := BlogStats.mk 0 0 0;
     commentStats := CommentStats.mk 0 0 0;
     eventStats := EventStats.mk 0 0;
     topPosts := [];
     categoryPerformance := [];
     loading := true;
     console := [] |}.

(** An async computation over the component: it leaves a state behind and
    resolves, rejects or stays pending. *)
Definition Async (A : Type) : Type := Dashboard → Dashboard * Awaited A.

#[global] Instance Async_ret : MRet Async := λ A a s, (s, Resolves a).

#[global] Instance Async_bind : MBind Async := λ A B k m s,
  match m s with
  | (s', Resolves a) => k a s'
  | (s', Rejects e) => (s', Rejects e)
  | (s', Pending) => (s', Pending)
  end.

(** [const { data } = await response]: [Some rows], or [None] for [null]. *)
Definition await_data {A} (r : Response A) : Async (option (list A)) :=
  λ s, match r with
       | Data rows => (s, Resolves (Some rows))
       | NoData => (s, Resolves None)
       | Throws e => (s, Rejects e)
       end.

Definition await {A} (p : Awaited A) : Async A := λ s, (s, p).

(** [if (data) { ... }]: an array, even an empty one, is truthy. *)
Definition if_data {A} (data : option (list A)) (k : list A → Async unit) : Async unit :=
  match data with
  | Some rows => k rows
  | None => mret ()
  end.

Definition modify (f : Dashboard → Dashboard) : Async unit := λ s, (f s, Resolves ()).

Definition setBlogStats (v : BlogStats.t) : Async unit :=
  modify (λ s, mkDashboard v (commentStats s) (eventStats s) (topPosts s)
                 (categoryPerformance s) (loading s) (console s)).
Definition setCommentStats (v : CommentStats.t) : Async unit :=
  modify (λ s, mkDashboard (blogStats s) v (eventStats s) (topPosts s)
                 (categoryPerformance s) (loading s) (console s)).
Definition setEventStats (v : EventStats.t) : Async unit :=
  modify (λ s, mkDashboard (blogStats s) (commentStats s) v (topPosts s)
                 (categoryPerformance s) (loading s) (console s)).
Definition setTopPosts (v : list TopPost.t) : Async unit :=
  modify (λ s, mkDashboard (blogStats s) (commentStats s) (eventStats s) v
                 (categoryPerformance s) (loading s) (console s)).
Definition setCategoryPerformance (v : list CategoryPerformance.t) : Async unit :=
  modify (λ s, mkDashboard (blogStats s) (commentStats s) (eventStats s) (topPosts s)
                 v (loading s) (console s)).
Definition setLoading (v : bool) : Async unit :=
  modify (λ s, mkDashboard (blogStats s) (commentStats s) (eventStats s) (topPosts s)
                 (categoryPerformance s) v (console s)).
Definition console_error (error : QueryError) : Async unit :=
  modify (λ s, mkDashboard (blogStats s) (commentStats s) (eventStats s) (topPosts s)
                 (categoryPerformance s) (loading s) (console s ++ [error])).

(** [try { body } catch (error) { handler } finally { finalizer }]. *)
Definition try_catch_finally (body : Async unit) (handler : QueryError → Async unit)
    (finalizer : Async unit) : Async unit :=
  λ s, match body s with
       | (s', Resolves _) => finalizer s'
       | (s', Rejects e) => (handler e ;; finalizer) s'
       | (s', Pending) => (s', Pending)
       end.

(** The five sections of the [try] block, in source order. *)

Definition fetchBlogStats (supabase : Backend) : Async unit :=
  blogs ← await_data (blog_posts_status supabase);
  if_data blogs (λ blogs, setBlogStats (blogStatsOf blogs)).

Definition fetchCommentStats (supabase : Backend) : Async unit :=
  comments ← await_data (comments_status supabase);
  if_data comments (λ comments, setCommentStats (commentStatsOf comments)).

Definition fetchEventStats (supabase : Backend) : Async unit :=
  events ← await_data (events_registered supabase);
  if_data events (λ events, setEventStats (eventStatsOf events)).

(** [await Promise.all(posts.map(async (post) => ...))] *)
Definition postsWithComments (supabase : Backend) (posts : list BlogPost.t)
  : Awaited (list TopPost.t) :=
  Promise_all (map (countApprovedComments supabase) posts) (completion_order supabase).

Definition fetchTopPosts (supabase : Backend) : Async unit :=
  posts ← await_data (recent_published_posts supabase);
  if_data posts (λ posts,
    postsWithComments ← await (postsWithComments supabase posts);
    setTopPosts postsWithComments).

Definition fetchCategoryPerformance (supabase : Backend) : Async unit :=
  allPosts ← await_data (published_posts_category supabase);
  if_data allPosts (λ allPosts, setCategoryPerformance (categoryData allPosts)).

(** [fetchAnalytics] (lines 20-117). *)
Definition fetchAnalytics (supabase : Backend) : Async unit :=
  try_catch_finally
    (fetchBlogStats supabase ;;
     fetchCommentStats supabase ;;
     fetchEventStats supabase ;;
     fetchTopPosts supabase ;;
     fetchCategoryPerformance supabase)
    (λ error, console_error error)
    (setLoading false).

(** The component after [fetchAnalytics] has run from state [s]. *)
Definition afterFetch (supabase : Backend) (s : Dashboard) : Dashboard :=
  (fetchAnalytics supabase s).1.

(** ** The queries, evaluated on tables

    The filters, ordering and limit that the source chains on each read,
    as list functions over the rows of a table. *)

Record Database : Type := mkDatabase {
  blog_posts : list BlogPost.t;
  comments : list Comment.t;
  events : list Event.t
}.

(** [.order('created_at', { ascending: false })]: rows with equal
    timestamps keep their relative order. *)
Fixpoint insert_desc (p : BlogPost.t) (l : list BlogPost.t) : list BlogPost.t :=
  match l with
  | [] => [p]
  | q :: l' =>
      if (BlogPost.created_at q <=? BlogPost.created_at p)%Z
      then p :: l
      else q :: insert_desc p l'
  end.

Definition order_created_at_desc (l : list BlogPost.t) : list BlogPost.t :=
  foldr insert_desc [] l.

(** [.eq('status', 'published')] on [blog_posts]. *)
Definition publishedPosts (db : Database) : list BlogPost.t :=
  filter (λ p, BlogPost.status p = "published") (blog_posts db).

(** [.eq('status', 'published').order('created_at', { ascending: false }).limit(5)] *)
Definition recentPublishedPosts (db : Database) : list BlogPost.t :=
  take 5 (order_created_at_desc (publishedPosts db)).

(** [.eq('blog_post_id', post.id).eq('status', 'approved')] on [comments]. *)
Definition approvedCommentsOf (db : Database) (post_id : string) : list Comment.t :=
  filter (λ c, Comment.blog_post_id c = post_id ∧ Comment.status c = "approved")
         (comments db).

Inductive Request : Type :=
  | ReadBlogStatus
  | ReadCommentStatus
  | ReadEvents
  | ReadRecentPosts
  | ReadApprovedComments (post_id : string)
  | ReadCategories.

Inductive Outcome : Type :=
  | Succeeds
  | ReturnsError
  | RejectsWith (error : QueryError).

Definition respond {A} (o : Outcome) (rows : list A) : Response A :=
  match o with
  | Succeeds => Data rows
  | ReturnsError => NoData
  | RejectsWith e => Throws e
  end.

(** The client over a database [db], where request [r] ends as [outcome r]
    says and per-post lookups settle in the order [order]. *)
Definition serve (db : Database) (outcome : Request → Outcome) (order : list nat)
  : Backend :=
  {| blog_posts_status := respond (outcome ReadBlogStatus) (blog_posts db);
     comments_status := respond (outcome ReadCommentStatus) (comments db);
     events_registered := respond (outcome ReadEvents) (events db);
     recent_published_posts := respond (outcome ReadRecentPosts) (recentPublishedPosts db);
     approved_comments_of :=
       λ post_id, respond (outcome (ReadApprovedComments post_id))
                          (approvedCommentsOf db post_id);
     published_posts_category := respond (outcome ReadCategories) (publishedPosts db);
     completion_order := order |}.

(** ** The specification's generic partition

    [partitionByStatus(rows, field, categories)] as the specification words
    it: the total, and one count per recognised category.  The two
    computations of the source are its instances at
    [["published"; "draft"]] and [["approved"; "pending"]]. *)
Definition partitionByStatus {A} (field : A → string) (rows : list A)
    (categories : list string) : nat * list nat :=
  (length rows,
   map (λ c, length (filter (λ r, field r = c) rows)) categories).

(** How many of the categories the row [r] falls into. *)
Definition buckets_of {A} (field : A → string) (categories : list string) (r : A) : nat :=
  length (filter (λ c, field r = c) categories).

(** The promises still awaited by [Promise.all]: the slots of [values] not
    yet filled. *)
Definition awaited {A} (values : list (option A)) : nat :=
  length (filter (λ x, x = None) values).

(** The entry of a post whose lookup does not reject: its title with the
    number of rows the lookup returned, 0 when it returned none. *)
Definition topPostOf (supabase : Backend) (post : BlogPost.t) : TopPost.t :=
  {| TopPost.title := BlogPost.title post;
     TopPost.comments :=
       match approved_comments_of supabase (BlogPost.id post) with
       | Data comments => length comments
       | _ => 0
       end |}.

(** ** Describing the outcome of [fetchAnalytics] *)

(** Whether a read rejects. *)
Definition throws {A} (r : Response A) : bool :=
  match r with
  | Throws _ => true
  | _ => false
  end.

(** The value a statistic shows after a read that did not reject: computed
    from the rows, or the previous value when there is no data. *)
Definition shown {A B} (r : Response A) (f : list A → B) (previous : B) : B :=
  match r with
  | Data rows => f rows
  | _ => previous
  end.

(** Whether a comment lookup of a fetched post rejects. *)
Definition lookup_throws (supabase : Backend) : bool :=
  match recent_published_posts supabase with
  | Data posts =>
      existsb (λ p, throws (approved_comments_of supabase (BlogPost.id p))) posts
  | _ => false
  end.

(** Every comment lookup of a fetched post settles. *)
Definition lookups_settle (supabase : Backend) : Prop :=
  ∀ posts, recent_published_posts supabase = Data posts →
           ∀ j, j < length posts → j ∈ completion_order supabase.

(** The number of sections of the [try] block, in source order (blog stats,
    comment stats, event stats, top posts, category performance), that run
    to their end before a read rejects. *)
Definition sections_completed (supabase : Backend) : nat :=
  if throws (blog_posts_status supabase) then 0
  else if throws (comments_status supabase) then 1
  else if throws (events_registered supabase) then 2
  else if throws (recent_published_posts supabase) || lookup_throws supabase then 3
  else if throws (published_posts_category supabase) then 4
  else 5.

(** The claim that a rejected event-stats read leaves the other statistics
    computed and the event statistics at zero. *)
Definition statistics_independent : Prop :=
  ∀ (supabase : Backend) (error : QueryError)
    (blogs : list BlogPost.t) (comments : list Comment.t)
    (posts allPosts : list BlogPost.t),
    blog_posts_status supabase = Data blogs →
    comments_status supabase = Data comments →
    events_registered supabase = Throws error →
    recent_published_posts supabase = Data posts →
    lookup_throws supabase = false →
    lookups_settle supabase →
    published_posts_category supabase = Data allPosts →
    let s' := afterFetch supabase initialDashboard in
    blogStats s' = blogStatsOf blogs ∧
    commentStats s' = commentStatsOf comments ∧
    eventStats s' = EventStats.mk 0 0 ∧
    topPosts s' = map (topPostOf supabase) posts ∧
    categoryPerformance s' = categoryData allPosts.

(** ** Sample data *)

Definition rsvp_of (id event_id : string) : RSVP.t :=
  RSVP.mk id "" "" "" "" event_id "".

Definition blog_with (status : string) : BlogPost.t :=
  BlogPost.mk "" "" "" status 0.



Definition post_in (category : string) : BlogPost.t :=
  BlogPost.mk "" "" category "published" 0.

Definition sample_db : Database :=
  {| blog_posts :=
       [BlogPost.mk "p1" "Welcome" "News" "published" 10;
        BlogPost.mk "p2" "Draft notes" "News" "draft" 20;
        BlogPost.mk "p3" "Shelter opening" "Events" "published" 30;
        BlogPost.mk "p4" "Volunteers" "Stories" "published" 40;
        BlogPost.mk "p5" "Winter drive" "Events" "published" 50;
        BlogPost.mk "p6" "Thank you" "Stories" "published" 60;
        BlogPost.mk "p7" "Year in review" "News" "published" 70];
     comments :=
       [Comment.mk "c1" "approved" "p7";
        Comment.mk "c2" "pending" "p7";
        Comment.mk "c3" "approved" "p5";
        Comment.mk "c4" "approved" "p7";
        Comment.mk "c5" "approved" "p1"];
     events := [Event.mk "e1" "Open day" 10; Event.mk "e2" "Gala" 5] |}.

(** [Number.prototype.toString] on the numbers that are integers below
    [10^21], which is all that the sample data needs. *)
Definition integer_toString (x : float) : string :=
  match Z_of_number x with
  | Some z => pretty z
  | None => "NaN"
  end.

(** The lookup for post [p5] comes back with an error and no data. *)
Definition sample_outcome (r : Request) : Outcome :=
  match r with
  | ReadApprovedComments post_id =>
      if decide (post_id = "p5") then ReturnsError else Succeeds
  | _ => Succeeds
  end.

(** All reads succeed, except that of the events, which rejects. *)
Definition events_fail : Backend :=
  serve sample_db
        (λ r, match r with
              | ReadEvents => RejectsWith (mkQueryError "events")
              | _ => Succeeds
              end)
        [0; 1; 2; 3; 4].

(** All reads succeed, except the lookup for post [p5], which rejects. *)
Definition one_lookup_fails : Backend :=
  serve sample_db
        (λ r, match r with
              | ReadApprovedComments post_id =>
                  if decide (post_id = "p5") then RejectsWith (mkQueryError "p5")
                  else Succeeds
              | _ => Succeeds
              end)
        [0; 1; 2; 3; 4].

(** The claim that a single failed lookup never drops its post or shrinks
    the list: when the lookup of one fetched post comes back without rows,
    with an error in the response or as a rejection, and the lookups of the
    other posts return rows, the top posts have one entry per fetched post,
    that of the post being its title with a count of 0. *)
Definition failed_lookup_keeps_post : Prop :=
  ∀ (supabase : Backend) (posts : list BlogPost.t) (i : nat) (p : BlogPost.t),
    recent_published_posts supabase = Data posts →
    lookups_settle supabase →
    posts !! i = Some p →
    (∀ rows, approved_comments_of supabase (BlogPost.id p) ≠ Data rows) →
    (∀ j q, posts !! j = Some q → j ≠ i →
            ∃ rows, approved_comments_of supabase (BlogPost.id q) = Data rows) →
    let tops := topPosts (fetchTopPosts supabase initialDashboard).1 in
    length tops = length posts ∧
    tops !! i = Some (TopPost.mk (BlogPost.title p) 0).

(** ** Further definitions for the analytics dashboard *)

(** The categories of a sequence, each at its first occurrence. *)
Fixpoint first_occurrences (l : list string) : list string :=
  match l with
  | [] => []
  | c :: l' => c :: filter (λ c', c' ≠ c) (first_occurrences l')
  end.

(** The lookups of [p7] and [p5] reject; that of [p5] settles first. *)
Definition lookups_fail : Backend :=
  serve sample_db
        (λ r, match r with
              | ReadApprovedComments post_id =>
                  if decide (post_id = "p7") then RejectsWith (mkQueryError "p7")
                  else if decide (post_id = "p5") then RejectsWith (mkQueryError "p5")
                  else Succeeds
              | _ => Succeeds
              end)
        [3; 2; 0; 1; 4].

(** ** What the dashboard displays (lines 119-262)

    The content of the rendered page: texts and values, without the markup
    and the styling.  The values and subtitles of the cards, built with
    [toString()] and template literals, are strings; a number placed in the
    JSX is kept as a number, and so is the percentage that gives a bar its
    width.  The text of a count, an array length, is its decimal numeral;
    the registration total is any number, and its text is what
    [Number.prototype.toString] gives. *)

Inductive Icon : Type := Eye | MessageSquare | Users | TrendingUp.

Module StatCard.
Record t : Type := mk {
  title : string;
  value : string;
  subtitle : string;
  icon : Icon
}.
End StatCard.

(** [const stats = [...]] (lines 126-151). *)
Definition stats (Number_toString : float → string) (s : Dashboard) : list StatCard.t :=
  [ {| StatCard.title := "Published Posts";
       StatCard.value := pretty (BlogStats.published (blogStats s));
       StatCard.subtitle := pretty (BlogStats.draft (blogStats s)) +:+ " drafts";
       StatCard.icon := Eye |};
    {| StatCard.title := "Total Comments";
       StatCard.value := pretty (CommentStats.total (commentStats s));
       StatCard.subtitle := pretty (CommentStats.pending (commentStats s)) +:+ " pending";
       StatCard.icon := MessageSquare |};
    {| StatCard.title := "Event Registrations";
       StatCard.value := Number_toString (EventStats.totalRegistrations (eventStats s));
       StatCard.subtitle := pretty (EventStats.total (eventStats s)) +:+ " events";
       StatCard.icon := Users |};
    {| StatCard.title := "Total Content";
       StatCard.value :=
         pretty (BlogStats.total (blogStats s) + EventStats.total (eventStats s));
       StatCard.subtitle := "Blog posts & events";
       StatCard.icon := TrendingUp |} ].

(** A list section of the page: a message when there is nothing to list,
    the rows otherwise. *)
Inductive Listing (A : Type) : Type :=
  | NothingToShow (message : string)
  | Rows (rows : list A).
Arguments NothingToShow {A} message.
Arguments Rows {A} rows.

Definition rows_of {A} (l : Listing A) : list A :=
  match l with
  | NothingToShow _ => []
  | Rows rows => rows
  end.

Module TopPostRow.
(** [<TableRow key={index}>] with the title and the comment badge. *)
Record t : Type := mk { key : nat; title : string; comments : nat }.
End TopPostRow.

Module CategoryBar.
(** [<div key={category.name}>]: the name, the number of posts, and the
    width of the bar in percent. *)
Record t : Type := mk { key : string; name : string; views : Count; width : float }.
End CategoryBar.

Record AnalyticsPage : Type := mkAnalyticsPage {
  cards : list StatCard.t;
  mostEngagedPosts : Listing TopPostRow.t;
  categoryBars : Listing CategoryBar.t;
  recentActivity : list (string * nat)
}.

Inductive AnalyticsView : Type :=
  | LoadingAnalytics (message : string)
  | Page (page : AnalyticsPage).

(** What [AnalyticsDashboard] returns for the state [s]. *)
Definition AnalyticsDashboard_render (Number_toString : float → string) (s : Dashboard)
  : AnalyticsView :=
  if loading s then LoadingAnalytics "Loading analytics..."
  else
    Page
      {| cards := stats Number_toString s;
         mostEngagedPosts :=
           if decide (length (topPosts s) = 0)
           then NothingToShow "No posts available"
           else Rows (imap (λ index post,
                              TopPostRow.mk index (TopPost.title post)
                                            (TopPost.comments post))
                           (topPosts s));
         categoryBars :=
           if decide (length (categoryPerformance s) = 0)
           then NothingToShow "No category data available"
           else Rows (map (λ category,
                             CategoryBar.mk (CategoryPerformance.name category)
                                            (CategoryPerformance.name category)
                                            (CategoryPerformance.views category)
                                            (CategoryPerformance.percentage category))
                          (categoryPerformance s));
         recentActivity :=
           [("Total Blog Posts", BlogStats.total (blogStats s));
            ("Published", BlogStats.published (blogStats s));
            ("Drafts", BlogStats.draft (blogStats s));
            ("Approved Comments", CommentStats.approved (commentStats s));
            ("Pending Comments", CommentStats.pending (commentStats s))] |}.

(** * The registrations view ([RSVPManagement]) *)

Module RSVPManagement.

(** What a settled read resolves to: [{ data, error }], each possibly
    [null]. *)
Record Result (A : Type) : Type := mkResult {
  data : option (list A);
  error : option QueryError
}.
Arguments mkResult {A} data error.
Arguments data {A} r.
Arguments error {A} r.

Module Toast.
Record t : Type := mk { title : string; description : string; variant : string }.
End Toast.

(** The [useState] cells of the component with their initial values, what
    [console.error] has written and the toasts shown. *)
Record State : Type := mkState {
  rsvps : list RSVP.t;
  events : list Event.t;
  selectedEvent : string;
  loading : bool;
  console : list QueryError;
  toasts : list Toast.t
}.

Definition initialState : State :=
  {| rsvps := []; events := []; selectedEvent := "all"; loading := true;
     console := []; toasts := [] |}.

Definition Task (A : Type) : Type := State → State * Awaited A.

#[global] Instance Task_ret : MRet Task := λ A a s, (s, Resolves a).

#[global] Instance Task_bind : MBind Task := λ A B k m s,
  match m s with
  | (s', Resolves a) => k a s'
  | (s', Rejects e) => (s', Rejects e)
  | (s', Pending) => (s', Pending)
  end.

Definition await {A} (p : Awaited A) : Task A := λ s, (s, p).

Definition throw {A} (e : QueryError) : Task A := λ s, (s, Rejects e).

Definition update (f : State → State) : Task unit := λ s, (f s, Resolves ()).

Definition setRsvps (v : list RSVP.t) : Task unit :=
  update (λ s, mkState v (events s) (selectedEvent s) (loading s) (console s) (toasts s)).
Definition setEvents (v : list Event.t) : Task unit :=
  update (λ s, mkState (rsvps s) v (selectedEvent s) (loading s) (console s) (toasts s)).
Definition setSelectedEvent (v : string) : Task unit :=
  update (λ s, mkState (rsvps s) (events s) v (loading s) (console s) (toasts s)).
Definition setLoading (v : bool) : Task unit :=
  update (λ s, mkState (rsvps s) (events s) (selectedEvent s) v (console s) (toasts s)).
Definition console_error (e : QueryError) : Task unit :=
  update (λ s, mkState (rsvps s) (events s) (selectedEvent s) (loading s)
                 (console s ++ [e]) (toasts s)).
Definition toast (t : Toast.t) : Task unit :=
  update (λ s, mkState (rsvps s) (events s) (selectedEvent s) (loading s)
                 (console s) (toasts s ++ [t])).

(** [try { body } catch (error) { handler }] *)
Definition try_catch (body : Task unit) (handler : QueryError → Task unit) : Task unit :=
  λ s, match body s with
       | (s', Resolves _) => (s', Resolves ())
       | (s', Rejects e) => handler e s'
       | (s', Pending) => (s', Pending)
       end.

(** [try { body } catch (error) { handler } finally { finalizer }] *)
Definition try_catch_finally (body : Task unit) (handler : QueryError → Task unit)
    (finalizer : Task unit) : Task unit :=
  λ s, match body s with
       | (s', Resolves _) => finalizer s'
       | (s', Rejects e) => (handler e ;; finalizer) s'
       | (s', Pending) => (s', Pending)
       end.

(** [if (error) throw error;] *)
Definition throw_if_error (error : option QueryError) : Task unit :=
  match error with
  | Some e => throw e
  | None => mret ()
  end.

(** [data || []] *)
Definition or_empty {A} (data : option (list A)) : list A :=
  match data with
  | Some rows => rows
  | None => []
  end.

(** [fetchEvents] (lines 37-49), given how its read ends. *)
Definition fetchEvents (response : Awaited (Result Event.t)) : Task unit :=
  try_catch
    (r ← await response;
     throw_if_error (error r) ;;
     setEvents (or_empty (data r)))
    (λ error, console_error error).

Definition loadFailed : Toast.t :=
  {| Toast.title := "Error";
     Toast.description := "Failed to load RSVPs";
     Toast.variant := "destructive" |}.

(** [fetchRSVPs] (lines 51-75), given how its read ends. *)
Definition fetchRSVPs (response : Awaited (Result RSVP.t)) : Task unit :=
  try_catch_finally
    (r ← await response;
     throw_if_error (error r) ;;
     setRsvps (or_empty (data r)))
    (λ error, console_error error ;; toast loadFailed)
    (setLoading false).

(** The effect [useEffect(() => { if (isAdmin) { fetchEvents();
    fetchRSVPs(); } }, [isAdmin])] (lines 30-35).  Neither call is awaited,
    and each touches the component only once its own read has settled: on
    the component the effect is that of the two functions in the order in
    which their reads settle, [eventsFirst] telling which. *)
Definition onMount (isAdmin : bool) (eventsResponse : Awaited (Result Event.t))
    (rsvpsResponse : Awaited (Result RSVP.t)) (eventsFirst : bool) (s : State) : State :=
  if isAdmin then
    if eventsFirst
    then (fetchRSVPs rsvpsResponse (fetchEvents eventsResponse s).1).1
    else (fetchEvents eventsResponse (fetchRSVPs rsvpsResponse s).1).1
  else s.

(** ** What the view displays (lines 81-158) *)

Module SelectItem.
(** [<SelectItem value=...>label</SelectItem>] *)
Record t : Type := mk { value : string; label : string }.
End SelectItem.

Module Row.
(** [<TableRow key={rsvp.id}>] with its five cells. *)
Record t : Type := mk {
  key : string;
  event : string;
  name : string;
  email : string;
  phone : string;
  registered : string
}.
End Row.

Inductive View : Type :=
  | PermissionNotice (message : string)
  | LoadingNotice (message : string)
  | RegistrationsCard (options : list SelectItem.t) (value : string)
                      (body : Listing Row.t).

Section Render.
(** [new Date(s).toLocaleDateString()], which depends on the locale. *)
Variable toLocaleDateString : string → string.

Definition row (rsvp : RSVP.t) : Row.t :=
  {| Row.key := RSVP.id rsvp;
     Row.event := RSVP.events rsvp;
     Row.name := RSVP.name rsvp;
     Row.email := RSVP.email rsvp;
     Row.phone := RSVP.phone rsvp;
     Row.registered := toLocaleDateString (RSVP.created_at rsvp) |}.

Definition options (s : State) : list SelectItem.t :=
  SelectItem.mk "all" "All Events"
  :: map (λ event, SelectItem.mk (Event.id event) (Event.title event)) (events s).

(** What [RSVPManagement] returns for the state [s]. *)
Definition render (isAdmin : bool) (s : State) : View :=
  if negb isAdmin
  then PermissionNotice "You do not have permission to access this page."
  else if loading s
  then LoadingNotice "Loading registrations..."
  else
    RegistrationsCard
      (options s) (selectedEvent s)
      (if decide (length (filteredRSVPs (selectedEvent s) (rsvps s)) = 0)
       then NothingToShow "No registrations found"
       else Rows (map row (filteredRSVPs (selectedEvent s) (rsvps s)))).
End Render.

End RSVPManagement.

(** * Properties *)

(** ** The model on small inputs *)

Example Math_round_ties :
  map Math_round [0.5; 1.5; 2.5; 57.5; -0.5; -1.5; 0.25; 100]%float
  = [1; 2; 3; 58; -0; -1; 0; 100]%float.
Proof. vm_compute. reflexivity. Qed.

(** Array-index keys come first, in numeric order; ["02"] is not one. *)
Example Object_entries_order :
  Object_entries (categoryCounts (map post_in ["b"; "10"; "a"; "2"; "b"; "02"]))
  = [("2", Number 1); ("10", Number 1); ("b", Number 2); ("a", Number 1);
     ("02", Number 1)].
Proof. vm_compute. reflexivity. Qed.

(** A category that names a function of [Object.prototype] gets a text for
    counter and NaN for percentage; the category ["__proto__"] gets no entry
    at all, while its posts count in the total. *)
Example categoryData_inherited_members :
  categoryData (map post_in ["constructor"; "__proto__"; "News"; "constructor"])
  = [CategoryPerformance.mk "constructor" (Text (Method "constructor") 2) nan;
     CategoryPerformance.mk "News" (Number 1) 25].
Proof. vm_compute. reflexivity. Qed.

Example number_of_Z_rounds :
  map number_of_Z [0; 15; -15; 9007199254740993]%Z
  = [0; 15; -15; 9007199254740992]%float.
Proof. vm_compute. reflexivity. Qed.

Example Promise_all_index_order :
  Promise_all [Resolves "a"; Resolves "b"; Resolves "c"] [2; 0; 1]
  = Resolves ["a"; "b"; "c"].
Proof. reflexivity. Qed.

Example Promise_all_first_rejection :
  Promise_all [Resolves "a"; Rejects (mkQueryError "x"); Rejects (mkQueryError "y")]
              [2; 1; 0]
  = Rejects (mkQueryError "y").
Proof. reflexivity. Qed.

Example Promise_all_unsettled :
  Promise_all [Resolves "a"; Resolves "b"] [0; 0] = Pending.
Proof. reflexivity. Qed.

Example recentPublishedPosts_sample :
  map BlogPost.id (recentPublishedPosts sample_db) = ["p7"; "p6"; "p5"; "p4"; "p3"].
Proof. reflexivity. Qed.

Example order_created_at_desc_stable :
  map BlogPost.id
      (order_created_at_desc
         [BlogPost.mk "a" "" "" "published" 1; BlogPost.mk "b" "" "" "published" 2;
          BlogPost.mk "c" "" "" "published" 1; BlogPost.mk "d" "" "" "published" 2])
  = ["b"; "d"; "a"; "c"].
Proof. reflexivity. Qed.

(** Every read succeeds, except the lookup for [p5], which has no data. *)
Example fetchAnalytics_sample :
  fetchAnalytics (serve sample_db sample_outcome [1; 4; 0; 3; 2]) initialDashboard
  = ({| blogStats := BlogStats.mk 7 6 1;
        commentStats := CommentStats.mk 5 4 1;
        eventStats := EventStats.mk 2 15;
        topPosts := [TopPost.mk "Year in review" 2; TopPost.mk "Thank you" 0;
                     TopPost.mk "Winter drive" 0; TopPost.mk "Volunteers" 0;
                     TopPost.mk "Shelter opening" 0];
        categoryPerformance :=
          [CategoryPerformance.mk "News" (Number 2) 33;
           CategoryPerformance.mk "Events" (Number 2) 33;
           CategoryPerformance.mk "Stories" (Number 2) 33];
        loading := false;
        console := [] |},
     Resolves ()).
Proof. vm_compute. reflexivity. Qed.

(** ** Registrations view *)

Section Filtering.
Context {A : Type} (P : A → Prop) `{!∀ x, Decision (P x)}.

(** [filter P l] is the largest sublist of [l] whose elements satisfy [P]. *)
Lemma sublist_filter_greatest (k l : list A) :
  k `sublist_of` l → Forall P k → k `sublist_of` filter P l.
Proof.
  induction 1 as [|x k l _ IH|x k l _ IH]; intros Hk.
  - constructor.
  - apply Forall_cons in Hk as [Hx Hk].
    rewrite filter_cons_True by done. constructor. by apply IH.
  - rewrite filter_cons. case_decide; [constructor|]; by apply IH.
Qed.
End Filtering.

(** C9.  With ["all"] selected the registrations shown are the fetched list
    itself.  With any other selection they are the rows of the fetched list
    whose [event_id] is the selected id, in their fetched order: a sublist of
    the fetched list, made of exactly the matching rows, and containing every
    sublist of matching rows. *)
Theorem filteredRSVPs_all_or_matching (selectedEvent : string) (rsvps : list RSVP.t) :
  (selectedEvent = "all" → filteredRSVPs selectedEvent rsvps = rsvps) ∧
  (selectedEvent ≠ "all" →
     filteredRSVPs selectedEvent rsvps `sublist_of` rsvps ∧
     (∀ r, r ∈ filteredRSVPs selectedEvent rsvps ↔
           r ∈ rsvps ∧ RSVP.event_id r = selectedEvent) ∧
     (∀ k, k `sublist_of` rsvps →
           Forall (λ r, RSVP.event_id r = selectedEvent) k →
           k `sublist_of` filteredRSVPs selectedEvent rsvps)).
Proof.
  unfold filteredRSVPs. split; intros Hsel.
  - by rewrite decide_True.
  - rewrite decide_False by done. split_and!.
    + apply sublist_filter.
    + intros r. rewrite list_elem_of_filter. tauto.
    + intros k Hk Hall. by apply sublist_filter_greatest.
Qed.

Lemma filteredRSVPs_all_or_matching_witness :
  filteredRSVPs "all" [rsvp_of "r1" "e1"; rsvp_of "r2" "e2"; rsvp_of "r3" "e1"]
    = [rsvp_of "r1" "e1"; rsvp_of "r2" "e2"; rsvp_of "r3" "e1"] ∧
  [rsvp_of "r1" "e1"; rsvp_of "r3" "e1"]
    `sublist_of` filteredRSVPs "e1" [rsvp_of "r1" "e1"; rsvp_of "r2" "e2"; rsvp_of "r3" "e1"].
Proof.
  split.
  - by apply (filteredRSVPs_all_or_matching "all").
  - apply (filteredRSVPs_all_or_matching "e1"); [done| |].
    + apply sublist_skip, sublist_cons, sublist_skip. constructor.
    + repeat constructor.
Defined.

(** ** Status partitions and the registration sum *)

Section Partition.
Context {A : Type} (field : A → string).

(** The number of rows whose field is [c], counted over the column. *)
Lemma length_filter_count_occ (c : string) (rows : list A) :
  length (filter (λ r, field r = c) rows) = count_occ string_dec (map field rows) c.
Proof.
  induction rows as [|r rows IH]; [done|].
  rewrite filter_cons. simpl.
  destruct (string_dec (field r) c); case_decide; simpl; congruence.
Qed.

Lemma partition_counts_nil (categories : list string) :
  sum_list (partitionByStatus field [] categories).2 = 0.
Proof. simpl. induction categories as [|c categories IH]; [done|]. by simpl. Qed.

Lemma partition_counts_cons (r : A) (rows : list A) (categories : list string) :
  sum_list (partitionByStatus field (r :: rows) categories).2
  = buckets_of field categories r + sum_list (partitionByStatus field rows categories).2.
Proof.
  unfold partitionByStatus, buckets_of. simpl.
  induction categories as [|c categories IH]; [done|].
  simpl. rewrite IH. rewrite !filter_cons.
  repeat case_decide; simpl; lia.
Qed.

Lemma buckets_of_NoDup (categories : list string) (r : A) :
  NoDup categories →
  buckets_of field categories r = if decide (field r ∈ categories) then 1 else 0.
Proof.
  unfold buckets_of. induction 1 as [|c categories Hc _ IH]; [done|].
  rewrite filter_cons.
  destruct (decide (field r = c)) as [Heq|Hne]; simpl; rewrite IH.
  - rewrite (decide_True (P := field r ∈ c :: categories))
      by (rewrite Heq; apply list_elem_of_here).
    rewrite decide_False; [done|]. by rewrite Heq.
  - destruct (decide (field r ∈ categories)) as [Hin|Hnin].
    + by rewrite decide_True by by apply list_elem_of_further.
    + rewrite decide_False; [done|].
      intros [?|?]%elem_of_cons; done.
Qed.

(** The category counts never add up to more than the total, and add up
    to it exactly when every row falls into a recognised category. *)
Lemma partition_sum_total (rows : list A) (categories : list string) :
  NoDup categories →
  (sum_list (partitionByStatus field rows categories).2
     ≤ (partitionByStatus field rows categories).1)%nat ∧
  (sum_list (partitionByStatus field rows categories).2
     = (partitionByStatus field rows categories).1
   ↔ ∀ r, r ∈ rows → field r ∈ categories).
Proof.
  intros Hnd. induction rows as [|r rows [IHle IHeq]].
  - rewrite partition_counts_nil. simpl. split; [lia|].
    split; [intros _ r Hr; by apply elem_of_nil in Hr|done].
  - rewrite partition_counts_cons, buckets_of_NoDup by done.
    change ((partitionByStatus field (r :: rows) categories).1)
      with (S (partitionByStatus field rows categories).1).
    case_decide as Hr.
    + split; [lia|]. split.
      * intros Heq r' [->|Hr']%elem_of_cons; [done|].
        apply IHeq; [lia|done].
      * intros Hall. f_equal. apply IHeq.
        intros r' Hr'. apply Hall. by apply list_elem_of_further.
    + split; [lia|]. split; [lia|].
      intros Hall. destruct Hr. apply Hall, list_elem_of_here.
Qed.

(** A row in no recognised category adds to the total only. *)
Lemma partition_unrecognised (rows1 rows2 : list A) (r : A) (categories : list string) :
  field r ∉ categories →
  partitionByStatus field (rows1 ++ r :: rows2) categories
  = (S (partitionByStatus field (rows1 ++ rows2) categories).1,
     (partitionByStatus field (rows1 ++ rows2) categories).2).
Proof.
  intros Hr. unfold partitionByStatus. simpl. f_equal.
  - rewrite !length_app. simpl. lia.
  - apply map_ext_in. intros c Hc%list_elem_of_In.
    rewrite !filter_app, filter_cons_False; [done|].
    intros Heq. apply Hr. by rewrite Heq.
Qed.
End Partition.

Lemma blogStats_partition (blogs : list BlogPost.t) :
  partitionByStatus BlogPost.status blogs ["published"; "draft"]
  = (BlogStats.total (blogStatsOf blogs),
     [BlogStats.published (blogStatsOf blogs); BlogStats.draft (blogStatsOf blogs)]).
Proof. reflexivity. Qed.

Lemma commentStats_partition (comments : list Comment.t) :
  partitionByStatus Comment.status comments ["approved"; "pending"]
  = (CommentStats.total (commentStatsOf comments),
     [CommentStats.approved (commentStatsOf comments);
      CommentStats.pending (commentStatsOf comments)]).
Proof. reflexivity. Qed.

(** C2.  For any rows and any set of recognised categories (a list without
    repetition), the category counts add up to at most the total, with
    equality exactly when every row's status is recognised; a row with an
    unrecognised status adds one to the total and nothing to any category
    count.  The blog and the comment statistics are the instances at
    {published, draft} and {approved, pending}. *)
Theorem partition_counts_within_total :
  (∀ (A : Type) (field : A → string) (rows : list A) (categories : list string),
     NoDup categories →
     let p := partitionByStatus field rows categories in
     (sum_list p.2 ≤ p.1)%nat ∧
     (sum_list p.2 = p.1 ↔ ∀ r, r ∈ rows → field r ∈ categories) ∧
     (∀ rows1 rows2 r, rows = rows1 ++ r :: rows2 → field r ∉ categories →
        p = (S (partitionByStatus field (rows1 ++ rows2) categories).1,
             (partitionByStatus field (rows1 ++ rows2) categories).2))) ∧
  (∀ blogs : list BlogPost.t,
     let s := blogStatsOf blogs in
     (BlogStats.published s + BlogStats.draft s ≤ BlogStats.total s)%nat ∧
     (BlogStats.published s + BlogStats.draft s = BlogStats.total s
      ↔ ∀ b, b ∈ blogs → BlogPost.status b ∈ ["published"; "draft"])) ∧
  (∀ comments : list Comment.t,
     let s := commentStatsOf comments in
     (CommentStats.approved s + CommentStats.pending s ≤ CommentStats.total s)%nat ∧
     (CommentStats.approved s + CommentStats.pending s = CommentStats.total s
      ↔ ∀ c, c ∈ comments → Comment.status c ∈ ["approved"; "pending"])).
Proof.
  split_and!.
  - intros A field rows categories Hnd p. subst p.
    destruct (partition_sum_total field rows categories Hnd) as [Hle Heq].
    split_and!; [done|done|].
    intros rows1 rows2 r -> Hr. by apply partition_unrecognised.
  - intros blogs s. subst s.
    assert (NoDup ["published"; "draft"]) as Hnd by compute_done.
    pose proof (partition_sum_total BlogPost.status blogs _ Hnd) as [Hle Heq].
    rewrite blogStats_partition in Hle, Heq. simpl in Hle, Heq.
    rewrite Nat.add_0_r in Hle, Heq. done.
  - intros comments s. subst s.
    assert (NoDup ["approved"; "pending"]) as Hnd by compute_done.
    pose proof (partition_sum_total Comment.status comments _ Hnd) as [Hle Heq].
    rewrite commentStats_partition in Hle, Heq. simpl in Hle, Heq.
    rewrite Nat.add_0_r in Hle, Heq. done.
Qed.

Lemma partition_counts_within_total_witness :
  let rows := [blog_with "published"; blog_with "archived"; blog_with "draft"] in
  let p := partitionByStatus BlogPost.status rows ["published"; "draft"] in
  NoDup ["published"; "draft"] ∧
  (sum_list p.2 ≤ p.1)%nat ∧
  p = (3, [1; 1]) ∧
  p = (S (partitionByStatus BlogPost.status
            [blog_with "published"; blog_with "draft"] ["published"; "draft"]).1,
       (partitionByStatus BlogPost.status
            [blog_with "published"; blog_with "draft"] ["published"; "draft"]).2).
Proof.
  assert (NoDup ["published"; "draft"]) as Hnd by compute_done.
  destruct partition_counts_within_total as [Hgen _].
  destruct (Hgen _ BlogPost.status
              [blog_with "published"; blog_with "archived"; blog_with "draft"]
              ["published"; "draft"] Hnd) as (Hle & _ & Hun).
  split_and!; [exact Hnd|exact Hle|reflexivity|].
  apply (Hun [blog_with "published"] [blog_with "draft"] (blog_with "archived"));
    [reflexivity|].
  compute_done.
Defined.

(** C7.  The statistics hold the number of rows as total and, for each
    recognised status, the number of rows whose status is that very string
    (compared exactly, so a status that differs in case or spacing is
    counted in no bucket); five posts of which three are published and two
    are drafts give total 5, published 3, draft 2. *)
Theorem partition_counts_exact :
  (∀ blogs : list BlogPost.t,
     BlogStats.total (blogStatsOf blogs) = length blogs ∧
     BlogStats.published (blogStatsOf blogs)
       = count_occ string_dec (map BlogPost.status blogs) "published" ∧
     BlogStats.draft (blogStatsOf blogs)
       = count_occ string_dec (map BlogPost.status blogs) "draft") ∧
  (∀ comments : list Comment.t,
     CommentStats.total (commentStatsOf comments) = length comments ∧
     CommentStats.approved (commentStatsOf comments)
       = count_occ string_dec (map Comment.status comments) "approved" ∧
     CommentStats.pending (commentStatsOf comments)
       = count_occ string_dec (map Comment.status comments) "pending") ∧
  (∀ blogs : list BlogPost.t,
     map BlogPost.status blogs = ["published"; "published"; "published"; "draft"; "draft"] →
     blogStatsOf blogs = BlogStats.mk 5 3 2) ∧
  (∀ blogs : list BlogPost.t,
     map BlogPost.status blogs = ["Published"; "DRAFT"; "published "; "draft"] →
     blogStatsOf blogs = BlogStats.mk 4 0 1).
Proof.
  assert (∀ blogs : list BlogPost.t,
     BlogStats.total (blogStatsOf blogs) = length blogs ∧
     BlogStats.published (blogStatsOf blogs)
       = count_occ string_dec (map BlogPost.status blogs) "published" ∧
     BlogStats.draft (blogStatsOf blogs)
       = count_occ string_dec (map BlogPost.status blogs) "draft") as Hblog.
  { intros blogs. split_and!; [done| |]; apply length_filter_count_occ. }
  assert (∀ blogs n p d statuses,
     map BlogPost.status blogs = statuses →
     length statuses = n →
     count_occ string_dec statuses "published" = p →
     count_occ string_dec statuses "draft" = d →
     blogStatsOf blogs = BlogStats.mk n p d) as Hscenario.
  { intros blogs n p d statuses Hst Hn Hp Hd.
    destruct (Hblog blogs) as (Ht & Hpub & Hdr).
    destruct (blogStatsOf blogs) as [t pu dr]. simpl in *.
    rewrite Hst in Hpub, Hdr.
    rewrite <- (length_map BlogPost.status), Hst in Ht. congruence. }
  split_and!.
  - exact Hblog.
  - intros comments. split_and!; [done| |]; apply length_filter_count_occ.
  - intros blogs Hst. by eapply Hscenario.
  - intros blogs Hst. by eapply Hscenario.
Qed.

Lemma partition_counts_exact_witness :
  blogStatsOf [blog_with "published"; blog_with "published"; blog_with "published";
               blog_with "draft"; blog_with "draft"]
  = BlogStats.mk 5 3 2.
Proof.
  apply partition_counts_exact. reflexivity.
Defined.

(** *** Sums of safe integers in binary64 *)

Section SafeIntegers.
Local Open Scope Z_scope.

























End SafeIntegers.






(** ** The counter object *)

Section JsObjects.
Implicit Types (o : JsObject) (k : string) (c : Count).

Lemma own_property_None o k : own_property o k = None ↔ k ∉ o.*1.
Proof.
  induction o as [|[k' c'] o IH]; simpl.
  - split; [intros _ []%elem_of_nil|done].
  - rewrite not_elem_of_cons. case_decide as Hk.
    + split; [done|]. intros [? _]. congruence.
    + rewrite IH. split; [done|by intros [_ ?]].
Qed.

Lemma own_property_elem_of o k c : NoDup o.*1 → (k, c) ∈ o → own_property o k = Some c.
Proof.
  induction o as [|[k' c'] o IH]; simpl; intros Hnd Hin.
  - by apply elem_of_nil in Hin.
  - apply NoDup_cons in Hnd as [Hk' Hnd].
    apply elem_of_cons in Hin as [[= <- <-]|Hin]; [by rewrite decide_True|].
    rewrite decide_False; [by apply IH|].
    intros ->. apply Hk'. apply list_elem_of_fmap. by exists (k, c).
Qed.

Lemma own_property_Some_elem_of o k c : own_property o k = Some c → (k, c) ∈ o.
Proof.
  induction o as [|[k' c'] o IH]; simpl; [done|].
  case_decide as Hk.
  - intros [= ->]. subst. apply list_elem_of_here.
  - intros ?. by apply list_elem_of_further, IH.
Qed.

Lemma obj_update_keys o k c : (obj_update o k c).*1 = o.*1.
Proof.
  induction o as [|[k' c'] o IH]; [done|]. simpl.
  case_decide; [done|]. rewrite !fmap_cons. by rewrite IH.
Qed.

Lemma own_property_update o k c k' :
  own_property (obj_update o k c) k'
  = if decide (k = k') then (λ _, c) <$> own_property o k else own_property o k'.
Proof.
  induction o as [|[k0 c0] o IH]; simpl; [by case_decide|].
  destruct (decide (k0 = k)) as [->|Hne]; simpl.
  - by destruct (decide (k = k')).
  - rewrite IH. destruct (decide (k0 = k')) as [->|Hne'].
    + by rewrite decide_False.
    + done.
Qed.

Lemma own_property_snoc o k c k' :
  own_property (o ++ [(k, c)]) k'
  = match own_property o k' with
    | Some c' => Some c'
    | None => if decide (k = k') then Some c else None
    end.
Proof.
  induction o as [|[k0 c0] o IH]; simpl; [done|].
  destruct (decide (k0 = k')); [done|apply IH].
Qed.

(** Reading the own properties back after [o[k] = c]. *)
Lemma own_property_set o k c k' :
  own_property (obj_set o k c) k'
  = if decide (k = k' ∧ k ≠ "__proto__") then Some c else own_property o k'.
Proof.
  unfold obj_set. destruct (decide (k = "__proto__")) as [Hproto|Hproto].
  { rewrite decide_False; [done|]. by intros [_ ?]. }
  destruct (own_property o k) as [c0|] eqn:Hown.
  - rewrite own_property_update, Hown. simpl.
    destruct (decide (k = k')) as [<-|Hne].
    + by rewrite decide_True.
    + rewrite decide_False; [done|]. by intros [? _].
  - rewrite own_property_snoc.
    destruct (decide (k = k')) as [<-|Hne].
    + rewrite Hown. by rewrite decide_True.
    + rewrite (decide_False (P := k = k' ∧ _)) by (by intros [? _]).
      by destruct (own_property o k').
Qed.

Lemma obj_set_keys o k c :
  (obj_set o k c).*1
  = if decide (k = "__proto__" ∨ k ∈ o.*1) then o.*1 else o.*1 ++ [k].
Proof.
  unfold obj_set. destruct (decide (k = "__proto__")) as [Hproto|Hproto].
  { rewrite decide_True; [done|by left]. }
  destruct (own_property o k) as [c0|] eqn:Hown.
  - rewrite obj_update_keys. rewrite decide_True; [done|]. right.
    apply own_property_Some_elem_of in Hown.
    apply list_elem_of_fmap. by exists (k, c0).
  - apply own_property_None in Hown.
    rewrite decide_False by (by intros [?|?]). by rewrite fmap_app.
Qed.

(** Assignments never list a key twice. *)
Lemma obj_set_NoDup o k c : NoDup o.*1 → NoDup (obj_set o k c).*1.
Proof.
  intros Hnd. rewrite obj_set_keys. case_decide as Hk; [done|].
  apply NoDup_app. split_and!; [done| |apply NoDup_singleton].
  intros k' Hk' ->%list_elem_of_singleton. apply Hk. by right.
Qed.

End JsObjects.

(** ** Array indices *)

Section ArrayIndex.
Local Open Scope N_scope.

Lemma digit_of_lt (c : ascii) (d : N) : digit_of c = Some d → d < 10.
Proof.
  unfold digit_of. destruct (_ && _) eqn:Hrange; [|done].
  apply andb_prop in Hrange as [H1%N.leb_le H2%N.leb_le]. intros [= <-]. lia.
Qed.

Lemma digit_of_inj (c1 c2 : ascii) (d : N) :
  digit_of c1 = Some d → digit_of c2 = Some d → c1 = c2.
Proof.
  unfold digit_of.
  destruct (_ && _) eqn:Hr1; [|done].
  destruct ((48 <=? N_of_ascii c2) && _) eqn:Hr2; [|done].
  apply andb_prop in Hr1 as [H1%N.leb_le _].
  apply andb_prop in Hr2 as [H2%N.leb_le _].
  intros [= <-] [= Heq].
  rewrite <- (ascii_N_embedding c1), <- (ascii_N_embedding c2). f_equal. lia.
Qed.

Lemma decimal_bounds (s : string) (acc n : N) :
  decimal acc s = Some n →
  acc * 10 ^ N.of_nat (String.length s) ≤ n
  ∧ n < (acc + 1) * 10 ^ N.of_nat (String.length s).
Proof.
  revert acc. induction s as [|c s IH]; intros acc; simpl String.length.
  - simpl. intros [= <-]. lia.
  - simpl decimal. destruct (digit_of c) as [d|] eqn:Hd; [|done].
    intros Hn. apply IH in Hn. apply digit_of_lt in Hd.
    rewrite Nat2N.inj_succ, N.pow_succ_r'.
    set (P := 10 ^ N.of_nat (String.length s)) in *. nia.
Qed.

Lemma decimal_inj (s1 s2 : string) (acc1 acc2 n : N) :
  String.length s1 = String.length s2 →
  decimal acc1 s1 = Some n → decimal acc2 s2 = Some n →
  acc1 = acc2 ∧ s1 = s2.
Proof.
  revert s2 acc1 acc2.
  induction s1 as [|c1 s1 IH]; intros [|c2 s2] acc1 acc2 Hlen; try done.
  - simpl. by intros [= ->] [= ->].
  - simpl. injection Hlen as Hlen.
    destruct (digit_of c1) as [d1|] eqn:Hd1; [|done].
    destruct (digit_of c2) as [d2|] eqn:Hd2; [|done].
    intros H1 H2. destruct (IH _ _ _ Hlen H1 H2) as [Hacc ->].
    pose proof (digit_of_lt _ _ Hd1). pose proof (digit_of_lt _ _ Hd2).
    assert (acc1 = acc2) as -> by lia. assert (d1 = d2) as -> by lia.
    by rewrite (digit_of_inj c1 c2 d2).
Qed.

(** The numeral of an array index, read backwards: either ["0"], or a
    numeral without a leading zero, whose value has as many digits. *)
Lemma array_index_cases (k : string) (n : N) :
  array_index k = Some n →
  (k = "0"%string ∧ n = 0) ∨
  (decimal 0 k = Some n ∧
   10 ^ N.of_nat (String.length k) ≤ 10 * n ∧ n < 10 ^ N.of_nat (String.length k)).
Proof.
  unfold array_index. destruct k as [|c k]; [done|].
  destruct (decide (String c k = "0"%string)) as [->|Hne0]; [intros [= <-]; by left|].
  destruct (decide (c = "0"%char)) as [->|Hc]; [done|].
  destruct (decimal 0 (String c k)) as [m|] eqn:Hdec; [|done].
  destruct (m <? 4294967295); [|done]. intros [= <-]. right. split; [done|].
  simpl in Hdec. destruct (digit_of c) as [d|] eqn:Hd; [|done].
  assert (d ≠ 0) as Hd0.
  { intros ->. apply Hc. by apply (digit_of_inj _ _ 0). }
  pose proof (digit_of_lt _ _ Hd) as Hd10.
  apply decimal_bounds in Hdec. simpl String.length.
  rewrite Nat2N.inj_succ, N.pow_succ_r'.
  set (P := 10 ^ N.of_nat (String.length k)) in *. nia.
Qed.

Lemma array_index_inj (k1 k2 : string) (n : N) :
  array_index k1 = Some n → array_index k2 = Some n → k1 = k2.
Proof.
  intros H1%array_index_cases H2%array_index_cases.
  assert (∀ k, 10 ^ N.of_nat (String.length k) ≤ 10 * 0 → False) as Hzero.
  { intros k Hk. pose proof (N.pow_nonzero 10 (N.of_nat (String.length k))). lia. }
  destruct H1 as [[-> ->]|(Hd1 & Hlo1 & Hhi1)], H2 as [[-> Hn]|(Hd2 & Hlo2 & Hhi2)].
  - done.
  - by apply Hzero in Hlo2.
  - subst n. by apply Hzero in Hlo1.
  - assert (String.length k1 = String.length k2) as Hlen.
    { assert (10 ^ N.of_nat (String.length k1) < 10 ^ N.succ (N.of_nat (String.length k2)))
        as Hlt1 by (rewrite N.pow_succ_r'; lia).
      assert (10 ^ N.of_nat (String.length k2) < 10 ^ N.succ (N.of_nat (String.length k1)))
        as Hlt2 by (rewrite N.pow_succ_r'; lia).
      apply N.pow_lt_mono_r_iff in Hlt1; [|lia]. apply N.pow_lt_mono_r_iff in Hlt2; [|lia].
      lia. }
    by destruct (decimal_inj k1 k2 0 0 n Hlen Hd1 Hd2).
Qed.

End ArrayIndex.

(** ** The enumeration order of own properties *)

Section Enumeration.
Implicit Types (o : JsObject) (e : string * Count) (l : list (string * Count)).

Lemma insert_by_index_perm e l : insert_by_index e l ≡ₚ e :: l.
Proof.
  induction l as [|e' l IH]; simpl; [done|].
  destruct (index_before e e'); [done|]. rewrite IH. apply Permutation_swap.
Qed.

Lemma sort_by_index_perm l : foldr insert_by_index [] l ≡ₚ l.
Proof.
  induction l as [|e l IH]; simpl; [done|].
  by rewrite insert_by_index_perm, IH.
Qed.

Lemma Object_entries_perm o : Object_entries o ≡ₚ o.
Proof.
  unfold Object_entries. rewrite sort_by_index_perm.
  induction o as [|e o IH]; [done|].
  destruct (array_index e.1) as [n|] eqn:He.
  - rewrite filter_cons_True by (simpl; rewrite He; by eexists).
    rewrite filter_cons_False by (simpl; by rewrite He).
    simpl. by rewrite IH.
  - rewrite filter_cons_False by (simpl; rewrite He; by intros [? ?]).
    rewrite filter_cons_True by done.
    rewrite <- Permutation_middle. by rewrite IH.
Qed.

(** An object without array-index keys is enumerated in creation order. *)
Lemma Object_entries_named o :
  (∀ k, k ∈ o.*1 → array_index k = None) → Object_entries o = o.
Proof.
  intros Hnamed. unfold Object_entries.
  assert (Forall (λ e, array_index e.1 = None) o) as Hnone.
  { apply Forall_forall. intros e He. apply Hnamed, list_elem_of_fmap. by exists e. }
  clear Hnamed.
  assert (filter (λ e, is_Some (array_index e.1)) o = []) as ->.
  { induction Hnone as [|e o He _ IH]; [done|].
    rewrite filter_cons_False by (simpl; rewrite He; by intros [? ?]). done. }
  simpl. induction Hnone as [|e o He _ IH]; [done|].
  by rewrite filter_cons_True, IH.
Qed.

Lemma listed_before_index e e' o n n' :
  array_index e.1 = Some n → array_index e'.1 = Some n' →
  listed_before o e e' ↔ (n < n')%N.
Proof. intros He He'. unfold listed_before. by rewrite He, He'. Qed.

(** Inserting an index entry with a new key keeps the index entries in
    ascending order. *)
Lemma insert_by_index_sorted o e l :
  is_Some (array_index e.1) →
  Forall (λ e', is_Some (array_index e'.1)) l →
  e.1 ∉ l.*1 →
  StronglySorted (listed_before o) l →
  StronglySorted (listed_before o) (insert_by_index e l).
Proof.
  intros [n He] Hl Hnew Hsorted.
  induction Hsorted as [|e' l Hsorted IH He']; simpl.
  { repeat constructor. }
  apply Forall_cons in Hl as [[n' Hn'] Hl].
  rewrite fmap_cons in Hnew. apply not_elem_of_cons in Hnew as [Hne Hnew].
  unfold index_before. rewrite He, Hn'.
  destruct (N.ltb_spec n n') as [Hlt|Hge].
  - constructor; [by constructor|].
    constructor; [by apply (listed_before_index _ _ _ n n')|].
    rewrite Forall_forall in He', Hl |- *. intros x Hx.
    destruct (Hl x Hx) as [m Hm].
    apply (listed_before_index _ _ _ n m); [done..|].
    specialize (He' x Hx). apply (listed_before_index _ _ _ n' m) in He'; [|done..].
    lia.
  - constructor; [by apply IH|].
    rewrite insert_by_index_perm. constructor; [|done].
    apply (listed_before_index _ _ _ n' n); [done..|].
    assert (n ≠ n') as Hnn'.
    { intros ->. apply Hne. by apply (array_index_inj _ _ n'). }
    lia.
Qed.

Lemma sort_by_index_sorted o l :
  Forall (λ e, is_Some (array_index e.1)) l →
  NoDup l.*1 →
  StronglySorted (listed_before o) (foldr insert_by_index [] l).
Proof.
  intros Hl Hnd. induction l as [|e l IH]; simpl; [constructor|].
  apply Forall_cons in Hl as [He Hl].
  rewrite fmap_cons in Hnd. apply NoDup_cons in Hnd as [Hnew Hnd].
  apply insert_by_index_sorted; [done| | |by apply IH].
  - by rewrite sort_by_index_perm.
  - by rewrite sort_by_index_perm.
Qed.

(** The entries that follow an entry in creation order were created after
    it. *)
Lemma created_order_sorted o prefix l :
  o = prefix ++ l →
  StronglySorted (listed_before o) (filter (λ e, array_index e.1 = None) l).
Proof.
  revert prefix. induction l as [|e l IH]; intros prefix Ho; [constructor|].
  assert (StronglySorted (listed_before o) (filter (λ e, array_index e.1 = None) l))
    as Hrest.
  { apply (IH (prefix ++ [e])). by rewrite <- app_assoc. }
  destruct (array_index e.1) as [n|] eqn:He.
  { by rewrite filter_cons_False by (simpl; by rewrite He). }
  rewrite filter_cons_True by done. constructor; [done|].
  apply Forall_forall. intros x [Hx Hin]%list_elem_of_filter.
  unfold listed_before. rewrite He, Hx.
  apply list_elem_of_lookup in Hin as [i Hi].
  exists (length prefix), (length prefix + S i). split_and!; [..|lia].
  - rewrite Ho, fmap_app, lookup_app_r by (by rewrite length_fmap).
    rewrite length_fmap, Nat.sub_diag. done.
  - rewrite Ho, fmap_app, lookup_app_r by (rewrite length_fmap; lia).
    rewrite length_fmap. replace (length prefix + S i - length prefix) with (S i) by lia.
    rewrite fmap_cons. simpl. by rewrite list_lookup_fmap, Hi.
Qed.

(** [Object.entries] lists the own properties in the enumeration order. *)
Lemma Object_entries_enumerates o : NoDup o.*1 → enumerates o (Object_entries o).
Proof.
  intros Hnd. split; [apply Object_entries_perm|].
  unfold Object_entries. apply StronglySorted_app_2.
  - intros x y Hx Hy. rewrite sort_by_index_perm in Hx.
    apply list_elem_of_filter in Hx as [[n Hn] _].
    apply list_elem_of_filter in Hy as [Hnone _].
    unfold listed_before. by rewrite Hn, Hnone.
  - apply sort_by_index_sorted.
    + apply Forall_forall. by intros e [? _]%list_elem_of_filter.
    + apply (sublist_NoDup _ o.*1); [exact Hnd|apply fmap_sublist, sublist_filter].
  - by apply (created_order_sorted o []).
Qed.

(** No two different entries are each listed before the other. *)
Lemma listed_before_asymmetric o e e' :
  NoDup o.*1 → listed_before o e e' → listed_before o e' e → False.
Proof.
  intros Hnd. unfold listed_before.
  destruct (array_index e.1) as [n|], (array_index e'.1) as [n'|]; try done.
  - lia.
  - intros (i & j & Hi & Hj & Hij) (j' & i' & Hj' & Hi' & Hji).
    assert (i = i') as -> by (by apply (NoDup_lookup o.*1 _ _ e.1)).
    assert (j = j') as -> by (by apply (NoDup_lookup o.*1 _ _ e'.1)).
    lia.
Qed.

(** The enumeration order allows one enumeration only. *)
Lemma enumerates_unique o l1 l2 :
  NoDup o.*1 → enumerates o l1 → enumerates o l2 → l1 = l2.
Proof.
  intros Hnd [Hperm1 Hsorted1] [Hperm2 Hsorted2].
  apply (StronglySorted_unique_strong (listed_before o)); [|done..|].
  - intros x1 x2 _ _ H12 H21. by destruct (listed_before_asymmetric o x1 x2).
  - by rewrite Hperm1, Hperm2.
Qed.

End Enumeration.

(** ** Category performance *)

Lemma count_steps_NoDup (allPosts : list BlogPost.t) (acc : JsObject) :
  NoDup acc.*1 → NoDup (fold_left count_step allPosts acc).*1.
Proof.
  revert acc. induction allPosts as [|post allPosts IH]; intros acc Hnd; [done|].
  simpl. by apply IH, obj_set_NoDup.
Qed.

Lemma categoryCounts_NoDup (allPosts : list BlogPost.t) :
  NoDup (categoryCounts allPosts).*1.
Proof. apply count_steps_NoDup. constructor. Qed.

Lemma categoryCounts_snoc (allPosts : list BlogPost.t) (post : BlogPost.t) :
  categoryCounts (allPosts ++ [post]) = count_step (categoryCounts allPosts) post.
Proof. unfold categoryCounts. by rewrite fold_left_app. Qed.

Lemma group_snoc (c : string) (allPosts : list BlogPost.t) (post : BlogPost.t) :
  length (group c (allPosts ++ [post]))
  = if decide (BlogPost.category post = c) then S (length (group c allPosts))
    else length (group c allPosts).
Proof.
  unfold group. rewrite filter_app, length_app, filter_cons, filter_nil.
  case_decide; simpl; lia.
Qed.

(** The counter of a category: none for ["__proto__"] and for a category
    without posts; otherwise the number of its posts, as a number or, under
    a key that names an inherited function, as so many characters ["1"]
    after the text of the function. *)
Lemma categoryCounts_own (allPosts : list BlogPost.t) (c : string) :
  own_property (categoryCounts allPosts) c
  = if decide (c = "__proto__") then None
    else match length (group c allPosts) with
         | 0 => None
         | S n => Some (count_of c (S n))
         end.
Proof.
  induction allPosts as [|post allPosts IH] using rev_ind.
  { simpl. by case_decide. }
  rewrite categoryCounts_snoc, group_snoc. unfold count_step.
  rewrite own_property_set.
  destruct (decide (c = "__proto__")) as [Hproto|Hproto].
  { rewrite decide_False; [exact IH|]. intros [Hc Hne]. congruence. }
  destruct (decide (BlogPost.category post = c)) as [Hc|Hc].
  - rewrite decide_True by (by rewrite Hc). rewrite Hc. f_equal.
    unfold obj_get. rewrite IH. unfold count_of.
    destruct (length (group c allPosts)) as [|n].
    + destruct (decide (c ∈ Object_prototype_methods)); [done|].
      by rewrite decide_False.
    + destruct (decide (c ∈ Object_prototype_methods)); simpl;
        f_equal; lia.
  - rewrite decide_False by (by intros [? _]). done.
Qed.

(** Each entry of the result names a category that occurs among the posts
    and is not ["__proto__"], and carries the counter of that category;
    every such category has its entry, and no category has two. *)
Lemma categoryData_views (allPosts : list BlogPost.t) :
  NoDup (map CategoryPerformance.name (categoryData allPosts)) ∧
  (∀ c, c ∈ map CategoryPerformance.name (categoryData allPosts)
        ↔ c ∈ map BlogPost.category allPosts ∧ c ≠ "__proto__") ∧
  (∀ r, r ∈ categoryData allPosts →
        CategoryPerformance.views r
        = count_of (CategoryPerformance.name r)
                   (length (group (CategoryPerformance.name r) allPosts)) ∧
        0 < length (group (CategoryPerformance.name r) allPosts)).
Proof.
  assert (map CategoryPerformance.name (categoryData allPosts)
          ≡ₚ (categoryCounts allPosts).*1) as Hnames.
  { unfold categoryData. rewrite map_map. simpl.
    change (map (λ entry : string * Count, entry.1) ?o) with (o.*1).
    by rewrite Object_entries_perm. }
  assert (∀ c v, (c, v) ∈ categoryCounts allPosts
                 → v = count_of c (length (group c allPosts))
                   ∧ 0 < length (group c allPosts)) as Hentry.
  { intros c v Hin.
    apply own_property_elem_of in Hin; [|apply categoryCounts_NoDup].
    rewrite categoryCounts_own in Hin. case_decide; [done|].
    destruct (length _); [done|]. injection Hin as <-. split; [done|lia]. }
  split_and!.
  - rewrite Hnames. apply categoryCounts_NoDup.
  - intros c. rewrite Hnames. split.
    + intros ([c' v] & -> & Hin)%list_elem_of_fmap. simpl.
      pose proof (own_property_elem_of _ _ _ (categoryCounts_NoDup allPosts) Hin) as Hown.
      rewrite categoryCounts_own in Hown.
      destruct (decide (c' = "__proto__")) as [|Hproto]; [done|]. split; [|done].
      destruct (group c' allPosts) as [|p g] eqn:Hg; [done|].
      assert (p ∈ group c' allPosts) as Hp by (rewrite Hg; apply list_elem_of_here).
      apply list_elem_of_filter in Hp as [<- Hp].
      apply list_elem_of_fmap. by exists p.
    + intros [(p & -> & Hp)%list_elem_of_fmap Hproto].
      destruct (own_property (categoryCounts allPosts) (BlogPost.category p))
        as [v|] eqn:Hown.
      * apply own_property_Some_elem_of in Hown.
        apply list_elem_of_fmap. by exists (BlogPost.category p, v).
      * rewrite categoryCounts_own, decide_False in Hown by done.
        assert (p ∈ group (BlogPost.category p) allPosts) as Hin
          by by apply list_elem_of_filter.
        destruct (group _ allPosts); [by apply elem_of_nil in Hin|done].
  - intros r (entry & -> & Hin)%list_elem_of_fmap. simpl.
    destruct entry as [c v]. apply Hentry.
    by rewrite <- (Object_entries_perm (categoryCounts allPosts)).
Qed.

(** C4.  On an empty set of published posts the category computation
    returns the empty sequence and evaluates no division, so no percentage,
    NaN or other, is produced; the empty array passes the [if (allPosts)]
    guard and the empty sequence is what the component stores.  On any
    input, a division is evaluated only once per entry, with the number of
    posts as divisor, and there are entries only if there are posts. *)
Theorem categoryData_empty :
  categoryData [] = [] ∧
  divisions [] = [] ∧
  Forall (λ r, PrimFloat.is_nan (CategoryPerformance.percentage r) = false)
         (categoryData []) ∧
  (∀ (supabase : Backend) (s : Dashboard),
     published_posts_category supabase = Data [] →
     fetchCategoryPerformance supabase s
     = (mkDashboard (blogStats s) (commentStats s) (eventStats s) (topPosts s)
                    [] (loading s) (console s), Resolves ())) ∧
  (∀ (allPosts : list BlogPost.t) (d : Count * nat),
     d ∈ divisions allPosts → d.2 = length allPosts ∧ d.2 ≠ 0).
Proof.
  split_and!; [done|done|constructor| |].
  - intros supabase s Hdata. unfold fetchCategoryPerformance.
    by rewrite Hdata.
  - intros allPosts d (entry & -> & Hin)%list_elem_of_fmap. simpl.
    split; [done|]. by destruct allPosts; [apply elem_of_nil in Hin|].
Qed.

Lemma categoryData_empty_witness :
  (fetchCategoryPerformance
     (mkBackend NoData NoData NoData NoData (λ _, NoData) (Data []) [])
     initialDashboard).1
  = mkDashboard (BlogStats.mk 0 0 0) (CommentStats.mk 0 0 0) (EventStats.mk 0 0)
                [] [] true [].
Proof.
  destruct categoryData_empty as (_ & _ & _ & Hfetch & _).
  by rewrite Hfetch.
Defined.

(** C5.  Every entry carries the counter of its category: the number of
    posts of the category, except under a name that [Object.prototype]
    gives to a function, where it is a text and the percentage is NaN; the
    category ["__proto__"] has no entry.  The
    percentage is [Math.round] of the binary64 product [(count / total) * 100],
    which is not always the exact quotient rounded half up: with 23 of 40
    published posts in one category the product is 57.49999999999999 and the
    entry shows 57, where [100 * 23 / 40 = 57.5] rounds half up to 58. *)
Theorem categoryData_tie_rounds_down :
  (∀ (allPosts : list BlogPost.t) (r : CategoryPerformance.t),
     r ∈ categoryData allPosts →
     CategoryPerformance.views r
     = count_of (CategoryPerformance.name r)
                (length (group (CategoryPerformance.name r) allPosts))) ∧
  (∀ (allPosts : list BlogPost.t) (r : CategoryPerformance.t),
     r ∈ categoryData allPosts →
     CategoryPerformance.name r ∉ Object_prototype_methods →
     CategoryPerformance.views r
     = Number (length (group (CategoryPerformance.name r) allPosts))) ∧
  categoryData (replicate 23 (post_in "A") ++ replicate 17 (post_in "B"))
  = [CategoryPerformance.mk "A" (Number 23) 57;
     CategoryPerformance.mk "B" (Number 17) 43] ∧
  (number_of_nat 23 / number_of_nat 40 * 100 <? 57.5)%float = true ∧
  round_half_up_percent 23 40 = 58%Z ∧
  categoryData [post_in "A"; post_in "A"; post_in "B"]
  = [CategoryPerformance.mk "A" (Number 2) 67;
     CategoryPerformance.mk "B" (Number 1) 33] ∧
  categoryData [post_in "toString"; post_in "A"]
  = [CategoryPerformance.mk "toString" (Text (Method "toString") 1) nan;
     CategoryPerformance.mk "A" (Number 1) 50] ∧
  categoryData [post_in "__proto__"; post_in "A"]
  = [CategoryPerformance.mk "A" (Number 1) 50].
Proof.
  split_and!.
  - intros allPosts r Hr. by apply categoryData_views.
  - intros allPosts r Hr Hname.
    destruct (categoryData_views allPosts) as (_ & _ & Hviews).
    destruct (Hviews r Hr) as [-> _]. unfold count_of. by rewrite decide_False.
  - vm_compute. reflexivity.
  - vm_compute. reflexivity.
  - reflexivity.
  - vm_compute. reflexivity.
  - vm_compute. reflexivity.
  - vm_compute. reflexivity.
Qed.

(** The table of counters depends on the posts only through their
    categories, in order. *)
Lemma count_steps_ext (allPosts1 allPosts2 : list BlogPost.t) (acc : JsObject) :
  map BlogPost.category allPosts1 = map BlogPost.category allPosts2 →
  fold_left count_step allPosts1 acc = fold_left count_step allPosts2 acc.
Proof.
  revert allPosts2 acc.
  induction allPosts1 as [|p1 allPosts1 IH]; intros [|p2 allPosts2] acc Hcat;
    try done.
  simpl in *. injection Hcat as Hp Hcat.
  unfold count_step at 2 4. rewrite Hp. by apply IH.
Qed.

Lemma categoryData_outcome_unique (allPosts1 allPosts2 : list BlogPost.t)
    (result1 result2 : list CategoryPerformance.t) :
  map BlogPost.category allPosts1 = map BlogPost.category allPosts2 →
  categoryData_outcome allPosts1 result1 →
  categoryData_outcome allPosts2 result2 →
  result1 = result2.
Proof.
  intros Hcat (entries1 & Henum1 & ->) (entries2 & Henum2 & ->).
  assert (categoryCounts allPosts1 = categoryCounts allPosts2) as Hcounts
    by by apply count_steps_ext.
  assert (length allPosts1 = length allPosts2) as Hlen
    by by rewrite <- (length_map BlogPost.category allPosts1), Hcat, length_map.
  rewrite Hcounts in Henum1. rewrite Hlen. f_equal.
  eapply enumerates_unique; [apply categoryCounts_NoDup|done..].
Qed.

(** C8.  The order in which the entries come is the enumeration order of the
    own properties of the table of counters: array-index keys ascending, then
    the other keys as created.  That order leaves no freedom: the result of
    the category computation is an enumeration in that order, and any two
    results that the order allows for the same rows are equal, entry by
    entry and in the same order.  The rows are read only through their
    [category], so the same holds of two row sequences with the same
    categories in the same order.  The table of counters starts empty at
    every invocation, so two invocations of the fetch that receive the same
    rows store the same sequence whatever the component held before and
    whatever the other reads returned. *)
Theorem categoryData_deterministic :
  (∀ allPosts : list BlogPost.t,
     categoryData_outcome allPosts (categoryData allPosts)) ∧
  (∀ (allPosts : list BlogPost.t) (result1 result2 : list CategoryPerformance.t),
     categoryData_outcome allPosts result1 →
     categoryData_outcome allPosts result2 →
     result1 = result2) ∧
  (∀ (allPosts1 allPosts2 : list BlogPost.t)
     (result1 result2 : list CategoryPerformance.t),
     map BlogPost.category allPosts1 = map BlogPost.category allPosts2 →
     categoryData_outcome allPosts1 result1 →
     categoryData_outcome allPosts2 result2 →
     result1 = result2) ∧
  (∀ (supabase1 supabase2 : Backend) (s1 s2 : Dashboard) (allPosts : list BlogPost.t),
     published_posts_category supabase1 = Data allPosts →
     published_posts_category supabase2 = Data allPosts →
     categoryPerformance (fetchCategoryPerformance supabase1 s1).1
     = categoryPerformance (fetchCategoryPerformance supabase2 s2).1).
Proof.
  split_and!.
  - intros allPosts. exists (Object_entries (categoryCounts allPosts)).
    split; [|done]. apply Object_entries_enumerates, categoryCounts_NoDup.
  - intros allPosts result1 result2. by apply categoryData_outcome_unique.
  - apply categoryData_outcome_unique.
  - intros supabase1 supabase2 s1 s2 allPosts H1 H2.
    unfold fetchCategoryPerformance. by rewrite H1, H2.
Qed.

Lemma categoryData_deterministic_witness :
  categoryData [BlogPost.mk "1" "first" "A" "published" 3;
                BlogPost.mk "2" "second" "7" "published" 2;
                BlogPost.mk "3" "third" "A" "published" 1]
  = categoryData [post_in "A"; post_in "7"; post_in "A"].
Proof.
  destruct categoryData_deterministic as (Hrun & _ & Hsame & _).
  apply (Hsame [BlogPost.mk "1" "first" "A" "published" 3;
                BlogPost.mk "2" "second" "7" "published" 2;
                BlogPost.mk "3" "third" "A" "published" 1]
               [post_in "A"; post_in "7"; post_in "A"]);
    [reflexivity|apply Hrun..].
Defined.

(** ** [Promise.all] *)

Section PromiseAll.
Context {A : Type}.
Implicit Types (values : list (option A)) (vs : list A).

Lemma awaited_pos_lookup values :
  0 < awaited values → ∃ j, values !! j = Some None.
Proof.
  unfold awaited. intros Hpos.
  destruct (filter _ values) as [|x l] eqn:Hf; [simpl in Hpos; lia|].
  assert (x ∈ filter (λ x, x = None) values) as Hx by (rewrite Hf; left).
  apply list_elem_of_filter in Hx as [-> Hx].
  by apply list_elem_of_lookup in Hx.
Qed.

Lemma awaited_insert values i v :
  values !! i = Some None →
  awaited values = S (awaited (<[i := Some v]> values)).
Proof.
  unfold awaited. revert i.
  induction values as [|x values IH]; intros [|i] Hi; try done.
  - injection Hi as ->.
    change (<[0:=Some v]> (None :: values)) with (Some v :: values).
    by rewrite filter_cons_True, filter_cons_False.
  - change (<[S i:=Some v]> (x :: values)) with (x :: <[i:=Some v]> values).
    rewrite !filter_cons. case_decide; simpl; by rewrite (IH i).
Qed.

Lemma awaited_zero_values values vs :
  awaited values = 0 →
  length values = length vs →
  (∀ i v, values !! i = Some (Some v) → vs !! i = Some v) →
  omap id values = vs.
Proof.
  unfold awaited. revert vs.
  induction values as [|x values IH]; intros [|v vs] Hz Hlen Hval; try done.
  rewrite filter_cons in Hz. destruct x as [w|].
  - rewrite decide_False in Hz by done. simpl.
    pose proof (Hval 0 w eq_refl) as Hw. injection Hw as ->. f_equal.
    apply IH; [done|by injection Hlen|]. intros i v'. apply (Hval (S i)).
  - by rewrite decide_True in Hz.
Qed.

(** Once every promise fulfils, and each of them settles at some point of
    [order], [Promise.all] resolves with the values in the order of the
    promises, whatever [order] is. *)
Lemma settle_all_resolves vs order values :
  length values = length vs →
  (∀ i v, values !! i = Some (Some v) → vs !! i = Some v) →
  0 < awaited values →
  (∀ j, values !! j = Some None → j ∈ order) →
  settle_all (map Resolves vs) order values (awaited values) = Resolves vs.
Proof.
  revert values. induction order as [|i order IH]; intros values Hlen Hval Hpos Hord.
  - apply awaited_pos_lookup in Hpos as [j Hj].
    by apply Hord, elem_of_nil in Hj.
  - simpl.
    assert (∀ j, j ≠ i → values !! j = Some None → j ∈ order) as Hrest.
    { intros j Hne Hj. apply Hord in Hj. by apply elem_of_cons in Hj as [?|?]. }
    destruct (values !! i) as [[w|]|] eqn:Hi.
    + apply IH; try done. intros j Hj. apply Hrest; [|done]. congruence.
    + destruct (lookup_lt_is_Some_2 vs i) as [v Hv].
      { rewrite <- Hlen. by eapply lookup_lt_Some. }
      rewrite list_lookup_fmap, Hv. simpl.
      pose proof (awaited_insert values i v Hi) as Hcount.
      assert (length (<[i:=Some v]> values) = length vs) as Hlen'
        by by rewrite length_insert.
      assert (∀ j u, <[i:=Some v]> values !! j = Some (Some u) → vs !! j = Some u)
        as Hval'.
      { intros j u. destruct (decide (i = j)) as [<-|Hne].
        - rewrite list_lookup_insert_eq by by eapply lookup_lt_Some.
          congruence.
        - rewrite list_lookup_insert_ne by done. apply Hval. }
      rewrite Hcount.
      destruct (awaited (<[i:=Some v]> values)) as [|n] eqn:Hn.
      * f_equal. by apply awaited_zero_values.
      * replace (S (S n) - 1) with (S n) by lia. rewrite <- Hn.
        apply IH; [done|done|lia|].
        intros j Hj. destruct (decide (i = j)) as [<-|Hne].
        -- rewrite list_lookup_insert_eq in Hj by by eapply lookup_lt_Some.
           done.
        -- rewrite list_lookup_insert_ne in Hj by done. by apply Hrest.
    + apply IH; try done. intros j Hj. apply Hrest; [|done]. congruence.
Qed.

Lemma awaited_replicate n : awaited (replicate n (@None A)) = n.
Proof.
  induction n as [|n IH]; [done|]. unfold awaited in *.
  change (replicate (S n) None) with (@None A :: replicate n None).
  rewrite filter_cons_True by done. simpl. by rewrite IH.
Qed.

Lemma Promise_all_resolves vs order :
  (∀ j, j < length vs → j ∈ order) →
  Promise_all (map Resolves vs) order = Resolves vs.
Proof.
  intros Hord. unfold Promise_all.
  destruct vs as [|v vs]; [done|].
  set (ws := v :: vs) in *. change (map Resolves ws) with (Resolves <$> ws).
  destruct (Resolves <$> ws) eqn:Hws; [done|]. rewrite <- Hws.
  rewrite length_fmap.
  rewrite <- (awaited_replicate (length ws)) at 2.
  apply settle_all_resolves.
  - by rewrite length_replicate.
  - intros i u Hi. apply lookup_replicate in Hi as [? _]. done.
  - rewrite awaited_replicate. simpl. lia.
  - intros j Hj. apply Hord. by apply lookup_replicate in Hj as [_ ?].
Qed.
End PromiseAll.

(** ** Top posts *)

Lemma or_zero_Some (n : nat) : or_zero (Some n) = n.
Proof. unfold or_zero. by case_decide. Qed.

Lemma countApprovedComments_resolves (supabase : Backend) (posts : list BlogPost.t) :
  (∀ p, p ∈ posts → ∀ e, approved_comments_of supabase (BlogPost.id p) ≠ Throws e) →
  map (countApprovedComments supabase) posts
  = map Resolves (map (topPostOf supabase) posts).
Proof.
  intros Hok. rewrite map_map. apply map_ext_in.
  intros p Hp%list_elem_of_In. specialize (Hok p Hp).
  unfold countApprovedComments, topPostOf.
  destruct (approved_comments_of supabase (BlogPost.id p)) as [cs| |e].
  - by rewrite or_zero_Some.
  - done.
  - by destruct (Hok e).
Qed.

(** With no lookup rejecting and every lookup settling, the awaited array
    has one entry per post, in the order of the posts. *)
Lemma postsWithComments_resolves (supabase : Backend) (posts : list BlogPost.t) :
  (∀ p, p ∈ posts → ∀ e, approved_comments_of supabase (BlogPost.id p) ≠ Throws e) →
  (∀ j, j < length posts → j ∈ completion_order supabase) →
  postsWithComments supabase posts = Resolves (map (topPostOf supabase) posts).
Proof.
  intros Hok Hord. unfold postsWithComments.
  rewrite countApprovedComments_resolves by done.
  apply Promise_all_resolves. by rewrite length_map.
Qed.

Lemma length_insert_desc (p : BlogPost.t) (l : list BlogPost.t) :
  length (insert_desc p l) = S (length l).
Proof.
  induction l as [|q l IH]; [done|]. simpl.
  destruct (_ <=? _)%Z; simpl; [done|]. by rewrite IH.
Qed.

Lemma length_order_created_at_desc (l : list BlogPost.t) :
  length (order_created_at_desc l) = length l.
Proof.
  induction l as [|p l IH]; [done|]. simpl.
  by rewrite length_insert_desc, IH.
Qed.

Lemma insert_desc_perm (p : BlogPost.t) (l : list BlogPost.t) :
  insert_desc p l ≡ₚ p :: l.
Proof.
  induction l as [|q l IH]; [done|]. simpl.
  destruct (_ <=? _)%Z; [done|]. rewrite IH. apply Permutation_swap.
Qed.

Lemma order_created_at_desc_perm (l : list BlogPost.t) :
  order_created_at_desc l ≡ₚ l.
Proof.
  induction l as [|p l IH]; [done|]. simpl.
  by rewrite insert_desc_perm, IH.
Qed.

(** [order_created_at_desc] puts later posts first. *)
Lemma order_created_at_desc_sorted (l : list BlogPost.t) :
  StronglySorted (λ p q, (BlogPost.created_at q ≤ BlogPost.created_at p)%Z)
                 (order_created_at_desc l).
Proof.
  induction l as [|p l IH]; [constructor|]. simpl.
  induction IH as [|q l' Hsorted IH Hq]; simpl; [repeat constructor|].
  destruct (Z.leb_spec (BlogPost.created_at q) (BlogPost.created_at p)) as [Hle|Hgt].
  - constructor; [by constructor|]. constructor; [done|].
    eapply Forall_impl; [exact Hq|]. simpl. intros r ?. lia.
  - constructor; [done|]. rewrite insert_desc_perm. constructor; [lia|done].
Qed.

(** C3.  Over any database, when no comment lookup rejects and each of them
    settles, the top posts are one (title, approved-comment count) pair per
    fetched post: as many as the smaller of 5 and the number of rows of
    [blog_posts] whose status is "published", in the order in which the
    posts were fetched, and the same for every order in which the lookups
    settle.  The fetched posts are published rows of the table, later ones
    first, and no published row that was left out is later than a fetched
    one.  The pairs are what [setTopPosts] stores. *)
Theorem topPosts_length_and_order
    (db : Database) (outcome : Request → Outcome) (order : list nat) :
  let posts := recentPublishedPosts db in
  let supabase := serve db outcome order in
  (∀ p, p ∈ posts → ∀ e, outcome (ReadApprovedComments (BlogPost.id p)) ≠ RejectsWith e) →
  (∀ j, j < length posts → j ∈ order) →
  ∃ tops : list TopPost.t,
    postsWithComments supabase posts = Resolves tops ∧
    length tops
    = 5 `min` count_occ string_dec (map BlogPost.status (blog_posts db)) "published" ∧
    (∀ p, p ∈ posts → p ∈ blog_posts db ∧ BlogPost.status p = "published") ∧
    StronglySorted (λ p q, (BlogPost.created_at q ≤ BlogPost.created_at p)%Z) posts ∧
    (∀ p q, p ∈ posts → q ∈ blog_posts db → BlogPost.status q = "published" →
            q ∉ posts → (BlogPost.created_at q ≤ BlogPost.created_at p)%Z) ∧
    map TopPost.title tops = map BlogPost.title posts ∧
    (∀ i p, posts !! i = Some p →
       outcome (ReadApprovedComments (BlogPost.id p)) = Succeeds →
       tops !! i = Some (TopPost.mk (BlogPost.title p)
                           (length (approvedCommentsOf db (BlogPost.id p))))) ∧
    (∀ order' : list nat,
       (∀ j, j < length posts → j ∈ order') →
       postsWithComments (serve db outcome order') posts = Resolves tops) ∧
    (∀ s : Dashboard,
       outcome ReadRecentPosts = Succeeds →
       fetchTopPosts supabase s
       = (mkDashboard (blogStats s) (commentStats s) (eventStats s) tops
                      (categoryPerformance s) (loading s) (console s),
          Resolves ())).
Proof.
  intros posts supabase Hok Hord.
  assert (∀ order', ∀ p, p ∈ posts → ∀ e,
            approved_comments_of (serve db outcome order') (BlogPost.id p) ≠ Throws e)
    as Hok'.
  { intros order' p Hp e. simpl. specialize (Hok p Hp).
    destruct (outcome _); simpl; [done|done|]. intros [= ->]. by eapply Hok. }
  set (sorted := order_created_at_desc (publishedPosts db)).
  assert (StronglySorted (λ p q, (BlogPost.created_at q ≤ BlogPost.created_at p)%Z)
                         (take 5 sorted ++ drop 5 sorted)) as Hsorted.
  { rewrite take_drop. apply order_created_at_desc_sorted. }
  exists (map (topPostOf supabase) posts). split_and!.
  - apply postsWithComments_resolves; [apply Hok'|done].
  - rewrite length_map. unfold posts, recentPublishedPosts.
    rewrite length_take, length_order_created_at_desc. unfold publishedPosts.
    by rewrite (length_filter_count_occ BlogPost.status).
  - intros p Hp. apply subseteq_take in Hp.
    rewrite order_created_at_desc_perm in Hp.
    apply list_elem_of_filter in Hp as [? ?]. done.
  - by apply StronglySorted_app_1_l in Hsorted.
  - intros p q Hp Hq Hstatus Hnot.
    apply (StronglySorted_app_1_elem_of _ _ _ p q Hsorted); [done|].
    assert (q ∈ take 5 sorted ++ drop 5 sorted) as Hin.
    { rewrite take_drop. unfold sorted. rewrite order_created_at_desc_perm.
      by apply list_elem_of_filter. }
    apply elem_of_app in Hin as [Hin|Hin]; [done|done].
  - rewrite map_map. done.
  - intros i p Hp Hsucc. change (map ?f ?l) with (f <$> l).
    rewrite list_lookup_fmap, Hp. simpl. unfold topPostOf. simpl.
    by rewrite Hsucc.
  - intros order' Hord'.
    rewrite (postsWithComments_resolves (serve db outcome order'));
      [done|apply Hok'|done].
  - intros s Hsucc. unfold fetchTopPosts. simpl. rewrite Hsucc. simpl.
    unfold mbind, Async_bind, await_data, await, if_data. simpl.
    fold posts. fold supabase.
    rewrite postsWithComments_resolves; [done|apply Hok'|done].
Qed.

Lemma topPosts_length_and_order_witness :
  postsWithComments (serve sample_db sample_outcome [3; 0; 4; 2; 1])
                    (recentPublishedPosts sample_db)
  = Resolves [TopPost.mk "Year in review" 2; TopPost.mk "Thank you" 0;
              TopPost.mk "Winter drive" 0; TopPost.mk "Volunteers" 0;
              TopPost.mk "Shelter opening" 0].
Proof.
  destruct (topPosts_length_and_order sample_db sample_outcome [3; 0; 4; 2; 1])
    as (tops & Htops & _ & _ & _ & _ & _ & _ & Hany & _).
  - intros p _ e. unfold sample_outcome. by case_decide.
  - intros j Hj. vm_compute in Hj.
    do 5 (destruct j as [|j]; [compute_done|]). lia.
  - rewrite Htops. symmetry. rewrite <- (Hany [0; 1; 2; 3; 4]).
    + vm_compute. reflexivity.
    + intros j Hj. vm_compute in Hj.
      do 5 (destruct j as [|j]; [compute_done|]). lia.
Defined.

(** ** Partial results of [fetchAnalytics] *)

Section PromiseAllRejects.
Context {A : Type}.
Implicit Types (values : list (option A)) (promises : list (Awaited A)).

Lemma awaited_lookup_pos values j : values !! j = Some None → 0 < awaited values.
Proof.
  intros Hj. unfold awaited.
  assert (None ∈ filter (λ x, x = None) values) as Hin.
  { apply list_elem_of_filter. split; [done|]. by eapply list_elem_of_lookup_2. }
  destruct (filter _ values); [by apply elem_of_nil in Hin|simpl; lia].
Qed.

(** If a promise that is still awaited rejects, and settles at some point
    of [order], [Promise.all] rejects, with the reason of a promise. *)
Lemma settle_all_rejects promises order values i0 e0 :
  values !! i0 = Some None →
  promises !! i0 = Some (Rejects e0) →
  i0 ∈ order →
  ∃ i e, promises !! i = Some (Rejects e) ∧
         settle_all promises order values (awaited values) = Rejects e.
Proof.
  revert values. induction order as [|i order IH]; intros values Hv Hp Hin.
  - by apply elem_of_nil in Hin.
  - simpl. destruct (decide (i = i0)) as [->|Hne].
    { rewrite Hv, Hp. by exists i0, e0. }
    apply elem_of_cons in Hin as [?|Hin]; [congruence|].
    destruct (values !! i) as [[w|]|] eqn:Hi; [by apply IH| |by apply IH].
    destruct (promises !! i) as [[v|e|]|] eqn:Hpi; [|by exists i, e|by apply IH..].
    pose proof (awaited_insert values i v Hi) as Hcount.
    assert (<[i:=Some v]> values !! i0 = Some None) as Hv'
      by by rewrite list_lookup_insert_ne.
    pose proof (awaited_lookup_pos _ _ Hv') as Hpos.
    rewrite Hcount.
    destruct (awaited (<[i:=Some v]> values)) as [|n] eqn:Hn; [lia|].
    replace (S (S n) - 1) with (S n) by lia. rewrite <- Hn. by apply IH.
Qed.

Lemma Promise_all_rejects promises order i0 e0 :
  promises !! i0 = Some (Rejects e0) →
  i0 ∈ order →
  ∃ i e, promises !! i = Some (Rejects e) ∧ Promise_all promises order = Rejects e.
Proof.
  intros Hp Hin. unfold Promise_all.
  destruct promises as [|p promises]; [done|].
  set (ps := p :: promises) in *.
  destruct (settle_all_rejects ps order (replicate (length ps) None) i0 e0)
    as (i & e & Hi & Hrej); [|done..|].
  - apply lookup_replicate. split; [done|]. by eapply lookup_lt_Some.
  - rewrite awaited_replicate in Hrej. by exists i, e.
Qed.
End PromiseAllRejects.

(** When a lookup of a fetched post rejects, so does the awaited array. *)
Lemma postsWithComments_rejects (supabase : Backend) (posts : list BlogPost.t) :
  existsb (λ p, throws (approved_comments_of supabase (BlogPost.id p))) posts = true →
  (∀ j, j < length posts → j ∈ completion_order supabase) →
  ∃ e, postsWithComments supabase posts = Rejects e.
Proof.
  intros Hex Hord. apply existsb_exists in Hex as (p & Hp%list_elem_of_In & Hthrows).
  apply list_elem_of_lookup in Hp as [i Hi].
  destruct (approved_comments_of supabase (BlogPost.id p)) as [| |e0] eqn:Hresp;
    try done.
  destruct (Promise_all_rejects (map (countApprovedComments supabase) posts)
              (completion_order supabase) i e0) as (i' & e & _ & Hrej).
  - change (map ?f ?l) with (f <$> l). rewrite list_lookup_fmap, Hi. simpl.
    unfold countApprovedComments. by rewrite Hresp.
  - apply Hord. by eapply lookup_lt_Some.
  - by exists e.
Qed.

Lemma existsb_throws_false (supabase : Backend) (posts : list BlogPost.t) :
  existsb (λ p, throws (approved_comments_of supabase (BlogPost.id p))) posts = false →
  ∀ p, p ∈ posts → ∀ e, approved_comments_of supabase (BlogPost.id p) ≠ Throws e.
Proof.
  intros Hex p Hp e Hthrows.
  assert (existsb (λ p, throws (approved_comments_of supabase (BlogPost.id p))) posts
          = true) as Htrue; [|congruence].
  apply existsb_exists. exists p. split; [by apply list_elem_of_In|].
  by rewrite Hthrows.
Qed.

(** What the top-posts section does, by cases. *)
Lemma fetchTopPosts_cases (supabase : Backend) (s : Dashboard) :
  lookups_settle supabase →
  (throws (recent_published_posts supabase) || lookup_throws supabase = false ∧
   fetchTopPosts supabase s
   = (mkDashboard (blogStats s) (commentStats s) (eventStats s)
        (shown (recent_published_posts supabase) (map (topPostOf supabase)) (topPosts s))
        (categoryPerformance s) (loading s) (console s), Resolves ())) ∨
  (throws (recent_published_posts supabase) || lookup_throws supabase = true ∧
   ∃ e, fetchTopPosts supabase s = (s, Rejects e)).
Proof.
  intros Hsettle. unfold lookup_throws, lookups_settle, fetchTopPosts in *.
  unfold mbind, Async_bind, await_data, await.
  destruct (recent_published_posts supabase) as [posts| |e]; simpl.
  - specialize (Hsettle posts eq_refl).
    destruct (existsb _ posts) eqn:Hex.
    + right. split; [done|].
      destruct (postsWithComments_rejects supabase posts Hex Hsettle) as [e ->].
      by exists e.
    + left. split; [done|].
      rewrite postsWithComments_resolves; [by destruct s| |done].
      by apply existsb_throws_false.
  - left. by destruct s.
  - right. split; [done|]. by exists e.
Qed.

(** C10, as the code has it.  A lookup that resolves without data leaves
    its post in the result, at the post's position, with a comment count of
    0, and a lookup that resolves with rows gives the number of rows,
    provided that no lookup rejects: the result then has one entry per post
    and is what [setTopPosts] stores.  A lookup that rejects is another
    matter: once it has settled the awaited array is rejected,
    [setTopPosts] is not reached, and the top-posts computation leaves the
    component as it was, with no entry for any post of this fetch. *)
Theorem lookup_without_data_counts_zero (supabase : Backend) (posts : list BlogPost.t) :
  (∀ j, j < length posts → j ∈ completion_order supabase) →
  ((∀ p, p ∈ posts → ∀ e, approved_comments_of supabase (BlogPost.id p) ≠ Throws e) →
   ∃ tops : list TopPost.t,
     postsWithComments supabase posts = Resolves tops ∧
     length tops = length posts ∧
     (∀ i p, posts !! i = Some p →
        approved_comments_of supabase (BlogPost.id p) = NoData →
        tops !! i = Some (TopPost.mk (BlogPost.title p) 0)) ∧
     (∀ i p rows, posts !! i = Some p →
        approved_comments_of supabase (BlogPost.id p) = Data rows →
        tops !! i = Some (TopPost.mk (BlogPost.title p) (length rows))) ∧
     (∀ s : Dashboard,
        recent_published_posts supabase = Data posts →
        topPosts (fetchTopPosts supabase s).1 = tops)) ∧
  (∀ p e, p ∈ posts → approved_comments_of supabase (BlogPost.id p) = Throws e →
   ∃ reason : QueryError,
     postsWithComments supabase posts = Rejects reason ∧
     (∀ s : Dashboard,
        recent_published_posts supabase = Data posts →
        fetchTopPosts supabase s = (s, Rejects reason))).
Proof.
  intros Hord. split.
  - intros Hok. exists (map (topPostOf supabase) posts).
    pose proof (postsWithComments_resolves supabase posts Hok Hord) as Hres.
    split_and!.
    + done.
    + by rewrite length_map.
    + intros i p Hp Hnone. change (map ?f ?l) with (f <$> l).
      rewrite list_lookup_fmap, Hp. simpl. unfold topPostOf. by rewrite Hnone.
    + intros i p rows Hp Hrows. change (map ?f ?l) with (f <$> l).
      rewrite list_lookup_fmap, Hp. simpl. unfold topPostOf. by rewrite Hrows.
    + intros s Hposts. unfold fetchTopPosts, mbind, Async_bind, await_data, await.
      rewrite Hposts. simpl. by rewrite Hres.
  - intros p e Hp Hthrows.
    destruct (postsWithComments_rejects supabase posts) as [reason Hrej]; [|done|].
    { apply existsb_exists. exists p. split; [by apply list_elem_of_In|].
      by rewrite Hthrows. }
    exists reason. split; [done|].
    intros s Hposts. unfold fetchTopPosts, mbind, Async_bind, await_data, await.
    rewrite Hposts. simpl. by rewrite Hrej.
Qed.

Lemma lookup_without_data_counts_zero_witness :
  ∃ tops : list TopPost.t,
    postsWithComments (serve sample_db sample_outcome [4; 3; 2; 1; 0])
                      (recentPublishedPosts sample_db) = Resolves tops ∧
    length tops = 5 ∧
    tops !! 2 = Some (TopPost.mk "Winter drive" 0).
Proof.
  destruct (lookup_without_data_counts_zero
              (serve sample_db sample_outcome [4; 3; 2; 1; 0])
              (recentPublishedPosts sample_db))
    as [Hresolves _].
  - intros j Hj. vm_compute in Hj.
    do 5 (destruct j as [|j]; [compute_done|]). lia.
  - destruct Hresolves as (tops & Htops & Hlen & Hnone & _).
    + intros p _ e. simpl. unfold sample_outcome. by case_decide.
    + exists tops. split_and!; [exact Htops|exact Hlen|].
      apply (Hnone 2 (BlogPost.mk "p5" "Winter drive" "Events" "published" 50));
        reflexivity.
Defined.

(** C10 as stated fails: when the lookup of the one post [p5] rejects and
    every other lookup returns rows, the top posts are not five entries with
    a 0 for [p5]: none of the five posts is listed. *)
Lemma rejected_lookup_drops_every_post :
  postsWithComments one_lookup_fails (recentPublishedPosts sample_db)
  = Rejects (mkQueryError "p5") ∧
  topPosts (afterFetch one_lookup_fails initialDashboard) = [] ∧
  ¬ failed_lookup_keeps_post.
Proof.
  split_and!; [reflexivity..|].
  intros Hclaim.
  specialize (Hclaim one_lookup_fails (recentPublishedPosts sample_db) 2
                     (BlogPost.mk "p5" "Winter drive" "Events" "published" 50)).
  destruct Hclaim as [Hlen _].
  - reflexivity.
  - intros posts [= <-] j Hj. vm_compute in Hj.
    do 5 (destruct j as [|j]; [compute_done|]). lia.
  - reflexivity.
  - intros rows. done.
  - intros j q Hq Hne.
    do 5 (destruct j as [|j]; [injection Hq as <-; (done || by eexists)|]).
    done.
  - vm_compute in Hlen. discriminate Hlen.
Qed.

(** C1, as the code has it.  [fetchAnalytics] has one handler around the
    whole sequence of reads.  A read that comes back without data leaves its
    statistic as it was and the sections after it still run.  A read that
    rejects ends the sequence: the statistics of the sections completed
    before it are refreshed, its own and those of the later sections are
    left as they were, the error is logged once, and in every case the
    function resolves with [loading] cleared.  When the event-stats read
    rejects, the logged error is that read's. *)
Theorem fetchAnalytics_partial_results (supabase : Backend) (s : Dashboard) :
  lookups_settle supabase →
  let s' := afterFetch supabase s in
  let n := sections_completed supabase in
  (fetchAnalytics supabase s).2 = Resolves () ∧
  loading s' = false ∧
  blogStats s'
    = (if decide (0 < n)
       then shown (blog_posts_status supabase) blogStatsOf (blogStats s)
       else blogStats s) ∧
  commentStats s'
    = (if decide (1 < n)
       then shown (comments_status supabase) commentStatsOf (commentStats s)
       else commentStats s) ∧
  eventStats s'
    = (if decide (2 < n)
       then shown (events_registered supabase) eventStatsOf (eventStats s)
       else eventStats s) ∧
  topPosts s'
    = (if decide (3 < n)
       then shown (recent_published_posts supabase) (map (topPostOf supabase)) (topPosts s)
       else topPosts s) ∧
  categoryPerformance s'
    = (if decide (4 < n)
       then shown (published_posts_category supabase) categoryData (categoryPerformance s)
       else categoryPerformance s) ∧
  (n = 5 → console s' = console s) ∧
  (n < 5 → ∃ e, console s' = console s ++ [e]) ∧
  (∀ e, n = 2 → events_registered supabase = Throws e →
        console s' = console s ++ [e]).
Proof.
  intros Hsettle s' n. subst s' n.
  unfold afterFetch, sections_completed, fetchAnalytics, try_catch_finally.
  unfold fetchBlogStats, fetchCommentStats, fetchEventStats, fetchCategoryPerformance.
  unfold mbind, Async_bind, await_data.
  destruct (blog_posts_status supabase) as [blogs| |e1]; simpl;
    [| |split_and!; (done || lia || (intros; by eexists))].
  all: destruct (comments_status supabase) as [comments| |e2]; simpl;
    [| |split_and!; (done || lia || (intros; by eexists))..].
  all: destruct (events_registered supabase) as [events| |e3]; simpl;
    [| |split_and!; (done || lia || (intros; by eexists) || (intros; congruence))..].
  all: match goal with
       | Hs : lookups_settle ?b |- context [fetchTopPosts ?b ?st] =>
           destruct (fetchTopPosts_cases b st Hs) as [[-> ->]|[-> [e4 ->]]]
       end; simpl;
    [|split_and!; (done || lia || (intros; by eexists))..].
  all: destruct (published_posts_category supabase) as [allPosts| |e5]; simpl;
    split_and!; (done || lia || (intros; by eexists)).
Qed.

Lemma sample_lookups_settle (outcome : Request → Outcome) :
  lookups_settle (serve sample_db outcome [0; 1; 2; 3; 4]).
Proof.
  intros posts Hposts j Hj. simpl in Hposts.
  assert (length posts = 5) as Hlen.
  { destruct (outcome ReadRecentPosts); simplify_eq/=. done. }
  rewrite Hlen in Hj. simpl.
  do 5 (destruct j as [|j]; [compute_done|]). lia.
Qed.

Lemma fetchAnalytics_partial_results_witness :
  let s' := afterFetch events_fail initialDashboard in
  loading s' = false ∧
  blogStats s' = BlogStats.mk 7 6 1 ∧
  commentStats s' = CommentStats.mk 5 4 1 ∧
  eventStats s' = EventStats.mk 0 0 ∧
  topPosts s' = [] ∧
  categoryPerformance s' = [] ∧
  console s' = [mkQueryError "events"].
Proof.
  destruct (fetchAnalytics_partial_results events_fail initialDashboard)
    as (_ & Hload & Hblog & Hcomment & Hevent & Htop & Hcat & _ & _ & Hlog).
  { apply sample_lookups_settle. }
  split_and!.
  - exact Hload.
  - rewrite Hblog. reflexivity.
  - rewrite Hcomment. reflexivity.
  - rewrite Hevent. reflexivity.
  - rewrite Htop. reflexivity.
  - rewrite Hcat. reflexivity.
  - rewrite (Hlog (mkQueryError "events")); reflexivity.
Defined.

(** C1 as stated fails: with the event-stats read rejecting and every other
    read succeeding, the five fetched posts and the six published posts give
    no top posts and no category performance. *)
Lemma event_failure_stops_later_statistics :
  events_registered events_fail = Throws (mkQueryError "events") ∧
  recent_published_posts events_fail = Data (recentPublishedPosts sample_db) ∧
  published_posts_category events_fail = Data (publishedPosts sample_db) ∧
  topPosts (afterFetch events_fail initialDashboard) = [] ∧
  length (map (topPostOf events_fail) (recentPublishedPosts sample_db)) = 5 ∧
  categoryPerformance (afterFetch events_fail initialDashboard) = [] ∧
  length (categoryData (publishedPosts sample_db)) = 3 ∧
  ¬ statistics_independent.
Proof.
  split_and!; try reflexivity.
  intros Hclaim.
  specialize (Hclaim events_fail (mkQueryError "events") _ _ _ _
                eq_refl eq_refl eq_refl eq_refl eq_refl
                (sample_lookups_settle _) eq_refl).
  destruct Hclaim as (_ & _ & _ & Htop & _). vm_compute in Htop. discriminate.
Qed.

(** * Further properties of the analytics dashboard *)

(** ** Grouping by category *)

Lemma filter_all {A} (P : A → Prop) `{!∀ x, Decision (P x)} (l : list A) :
  (∀ x, P x) → filter P l = l.
Proof.
  intros HP. induction l as [|x l IH]; [done|].
  by rewrite filter_cons_True, IH.
Qed.

Lemma filter_Forall {A} (P : A → Prop) `{!∀ x, Decision (P x)} (l : list A) :
  Forall P l → filter P l = l.
Proof.
  induction 1 as [|x l Hx _ IH]; [done|].
  by rewrite filter_cons_True, IH.
Qed.

Section CounterTotals.
Implicit Types (o : JsObject) (k : string).

Lemma posts_counted_count_of (category : string) (n : nat) :
  posts_counted (count_of category n) = n.
Proof. unfold count_of. by case_decide. Qed.

Lemma obj_update_counted o k (c c0 : Count) :
  own_property o k = Some c0 →
  sum_list_with (λ entry, posts_counted entry.2) (obj_update o k c) + posts_counted c0
  = sum_list_with (λ entry, posts_counted entry.2) o + posts_counted c.
Proof.
  induction o as [|[k' c'] o IH]; [done|]. simpl.
  case_decide as Hk.
  - intros [= ->]. simpl. lia.
  - intros Hown. specialize (IH Hown). simpl. lia.
Qed.

(** Each step of the reduction counts one more post, except for a post of
    category ["__proto__"], which leaves the counters as they are. *)
Lemma count_step_counted o (post : BlogPost.t) :
  sum_list_with (λ entry, posts_counted entry.2) (count_step o post)
  = sum_list_with (λ entry, posts_counted entry.2) o
    + (if decide (BlogPost.category post = "__proto__") then 0 else 1).
Proof.
  unfold count_step, obj_set, obj_get.
  destruct (decide (BlogPost.category post = "__proto__")) as [Hproto|Hproto]; [lia|].
  destruct (own_property o (BlogPost.category post)) as [c0|] eqn:Hown.
  - pose proof (obj_update_counted o _ (or_zero_plus_one (Primitive c0)) c0 Hown) as Hup.
    destruct c0; simpl in *; lia.
  - rewrite sum_list_with_app. simpl.
    destruct (decide (_ ∈ Object_prototype_methods)); simpl; lia.
Qed.

Lemma count_steps_counted (allPosts : list BlogPost.t) o :
  sum_list_with (λ entry, posts_counted entry.2) (fold_left count_step allPosts o)
  = sum_list_with (λ entry, posts_counted entry.2) o
    + length (filter (λ p, BlogPost.category p ≠ "__proto__") allPosts).
Proof.
  revert o. induction allPosts as [|post allPosts IH]; intros o; simpl; [lia|].
  rewrite IH, count_step_counted, filter_cons.
  destruct (decide (BlogPost.category post = "__proto__")) as [Hproto|Hproto].
  - rewrite decide_False by (intros Hne; by apply Hne). lia.
  - rewrite decide_True by done. simpl. lia.
Qed.

Lemma count_step_keys o (post : BlogPost.t) :
  (count_step o post).*1
  = if decide (BlogPost.category post = "__proto__" ∨ BlogPost.category post ∈ o.*1)
    then o.*1
    else o.*1 ++ [BlogPost.category post].
Proof. apply obj_set_keys. Qed.

(** The keys are created in the order in which the categories other than
    ["__proto__"] first occur. *)
Lemma count_steps_keys (allPosts : list BlogPost.t) o :
  (fold_left count_step allPosts o).*1
  = o.*1 ++ filter (λ c, c ∉ o.*1)
              (first_occurrences
                 (filter (λ c, c ≠ "__proto__") (map BlogPost.category allPosts))).
Proof.
  revert o. induction allPosts as [|post allPosts IH]; intros o.
  - simpl. by rewrite app_nil_r.
  - simpl. rewrite IH. rewrite count_step_keys.
    set (c := BlogPost.category post).
    change (map ?f ?l) with (f <$> l). rewrite filter_cons.
    assert (c = "__proto__" ∨ c ≠ "__proto__") as [Hproto|Hproto]
      by (destruct (decide (c = "__proto__")); auto).
    { rewrite (decide_True (P := c = "__proto__" ∨ _)) by (by left).
      rewrite (decide_False (P := c ≠ "__proto__")) by (intros Hne; by apply Hne).
      done. }
    rewrite (decide_True (P := c ≠ "__proto__")) by done. simpl.
    set (rest := first_occurrences _).
    rewrite filter_cons.
    assert (c ∈ o.*1 ∨ c ∉ o.*1) as [Hin|Hnin]
      by (destruct (decide (c ∈ o.*1)); auto).
    + rewrite (decide_True (P := c = "__proto__" ∨ _)) by (by right).
      rewrite (decide_False (P := c ∉ o.*1)) by (intros Hn; by apply Hn). f_equal.
      rewrite list_filter_filter. apply list_filter_iff.
      intros c'. split; [|tauto]. intros Hc'. split; [done|].
      intros ->. done.
    + rewrite (decide_False (P := c = "__proto__" ∨ _)) by (by intros [?|?]).
      rewrite (decide_True (P := c ∉ o.*1)) by done.
      rewrite <- app_assoc. simpl. do 2 f_equal.
      rewrite list_filter_filter. apply list_filter_iff.
      intros c'. rewrite elem_of_app, list_elem_of_singleton. tauto.
Qed.

Lemma elem_of_first_occurrences (l : list string) (c : string) :
  c ∈ first_occurrences l → c ∈ l.
Proof.
  induction l as [|c0 l IH]; [done|]. simpl.
  intros [->|Hin]%elem_of_cons; [by left|].
  apply list_elem_of_filter in Hin as [_ Hin]. right. by apply IH.
Qed.

End CounterTotals.

Lemma categoryCounts_keys (allPosts : list BlogPost.t) :
  (categoryCounts allPosts).*1
  = first_occurrences (filter (λ c, c ≠ "__proto__") (map BlogPost.category allPosts)).
Proof.
  unfold categoryCounts. rewrite count_steps_keys. simpl.
  apply filter_all. intros c. apply not_elem_of_nil.
Qed.

Lemma categoryData_total (allPosts : list BlogPost.t) :
  sum_list_with (λ r, posts_counted (CategoryPerformance.views r)) (categoryData allPosts)
  = length (filter (λ p, BlogPost.category p ≠ "__proto__") allPosts).
Proof.
  unfold categoryData.
  transitivity (sum_list_with (λ entry, posts_counted entry.2)
                              (Object_entries (categoryCounts allPosts))).
  { generalize (Object_entries (categoryCounts allPosts)).
    intros l. induction l as [|entry l IH]; [done|]. simpl. by rewrite IH. }
  rewrite Object_entries_perm. unfold categoryCounts.
  by rewrite count_steps_counted.
Qed.

(** There is no entry exactly when every post, if any, has the category
    ["__proto__"]. *)
Lemma categoryData_nil (allPosts : list BlogPost.t) :
  categoryData allPosts = [] ↔ ∀ p, p ∈ allPosts → BlogPost.category p = "__proto__".
Proof.
  destruct (categoryData_views allPosts) as (_ & Hnames & _). split.
  - intros Hnil p Hp.
    destruct (decide (BlogPost.category p = "__proto__")) as [|Hproto]; [done|].
    assert (BlogPost.category p ∈ map CategoryPerformance.name (categoryData allPosts))
      as Hin.
    { apply Hnames. split; [|done]. apply list_elem_of_fmap. by exists p. }
    rewrite Hnil in Hin. by apply elem_of_nil in Hin.
  - intros Hall. destruct (categoryData allPosts) as [|r l] eqn:Hdata; [done|].
    assert (CategoryPerformance.name r ∈ map CategoryPerformance.name (r :: l)) as Hin
      by apply list_elem_of_here.
    apply Hnames in Hin as [(p & Hname & Hp)%list_elem_of_fmap Hproto].
    destruct Hproto. rewrite Hname. by apply Hall.
Qed.

(** X1.  The entries of the category performance partition the published
    posts whose category is not ["__proto__"]: no category is listed twice;
    the categories listed are those that occur among the posts, except
    ["__proto__"]; every entry has counted the posts of its category, at
    least one; the entries together have counted each such post once; and
    there is no entry exactly when there is no such post.  When no category
    names a member of [Object.prototype], the listed categories are all the
    categories that occur, the counters are numbers that add up to the
    number of posts, and there is no entry only when there is no post. *)
Theorem categoryData_partitions_posts (allPosts : list BlogPost.t) :
  NoDup (map CategoryPerformance.name (categoryData allPosts)) ∧
  (∀ c, c ∈ map CategoryPerformance.name (categoryData allPosts)
        ↔ c ∈ map BlogPost.category allPosts ∧ c ≠ "__proto__") ∧
  (∀ r, r ∈ categoryData allPosts →
        posts_counted (CategoryPerformance.views r)
        = length (group (CategoryPerformance.name r) allPosts) ∧
        1 ≤ posts_counted (CategoryPerformance.views r)) ∧
  sum_list_with (λ r, posts_counted (CategoryPerformance.views r)) (categoryData allPosts)
  = length (filter (λ p, BlogPost.category p ≠ "__proto__") allPosts) ∧
  (categoryData allPosts = []
   ↔ ∀ p, p ∈ allPosts → BlogPost.category p = "__proto__") ∧
  ((∀ p, p ∈ allPosts →
         BlogPost.category p ∉ "__proto__" :: Object_prototype_methods) →
   (∀ c, c ∈ map CategoryPerformance.name (categoryData allPosts)
         ↔ c ∈ map BlogPost.category allPosts) ∧
   (∀ r, r ∈ categoryData allPosts →
         CategoryPerformance.views r
         = Number (length (group (CategoryPerformance.name r) allPosts))) ∧
   sum_list_with (λ r, posts_counted (CategoryPerformance.views r)) (categoryData allPosts)
   = length allPosts ∧
   (categoryData allPosts = [] ↔ allPosts = [])).
Proof.
  destruct (categoryData_views allPosts) as (Hnd & Hnames & Hviews).
  split_and!; [done|done| |apply categoryData_total|apply categoryData_nil|].
  - intros r Hr. destruct (Hviews r Hr) as [-> Hpos].
    rewrite posts_counted_count_of. split; [done|lia].
  - intros Hplain.
    assert (∀ p, p ∈ allPosts → BlogPost.category p ≠ "__proto__") as Hproto.
    { intros p Hp Heq. apply (Hplain p Hp). rewrite Heq. by left. }
    split_and!.
    + intros c. rewrite Hnames. split; [by intros [? _]|]. intros Hc. split; [done|].
      apply list_elem_of_fmap in Hc as (p & -> & Hp). by apply Hproto.
    + intros r Hr. destruct (Hviews r Hr) as [-> _].
      assert (CategoryPerformance.name r ∈ map BlogPost.category allPosts) as Hc.
      { apply Hnames. change (map ?f ?l) with (f <$> l).
        apply list_elem_of_fmap. by exists r. }
      apply list_elem_of_fmap in Hc as (p & -> & Hp).
      unfold count_of. rewrite decide_False; [done|].
      intros Hin. apply (Hplain p Hp). by right.
    + rewrite categoryData_total. f_equal. apply filter_Forall.
      by apply Forall_forall.
    + rewrite categoryData_nil. split;
        [|intros -> p Hp; by apply elem_of_nil in Hp].
      intros Hall. destruct allPosts as [|p l]; [done|].
      destruct (Hproto p); [by left|]. apply Hall. by left.
Qed.

Lemma categoryData_partitions_posts_witness :
  sum_list_with (λ r, posts_counted (CategoryPerformance.views r))
                (categoryData (map post_in ["News"; "Events"; "News"]))
  = 3.
Proof.
  destruct (categoryData_partitions_posts (map post_in ["News"; "Events"; "News"]))
    as (_ & _ & _ & _ & _ & Hplain).
  destruct Hplain as (_ & _ & Hsum & _); [|exact Hsum].
  intros p Hp. repeat (apply elem_of_cons in Hp as [->|Hp]; [compute_done|]).
  by apply elem_of_nil in Hp.
Defined.

(** X2.  When no category is the decimal numeral of an array index, the
    entries of the category performance are listed in the order in which
    their categories first occur among the posts, the category
    ["__proto__"], which gets no entry, left aside. *)
Theorem categoryData_first_occurrence_order (allPosts : list BlogPost.t) :
  (∀ p, p ∈ allPosts → array_index (BlogPost.category p) = None) →
  map CategoryPerformance.name (categoryData allPosts)
  = first_occurrences
      (filter (λ c, c ≠ "__proto__") (map BlogPost.category allPosts)).
Proof.
  intros Hnamed. unfold categoryData. rewrite map_map. simpl.
  change (map (λ entry : string * Count, entry.1) ?o) with (o.*1).
  rewrite Object_entries_named; [apply categoryCounts_keys|].
  intros k. rewrite categoryCounts_keys.
  intros Hk%elem_of_first_occurrences.
  apply list_elem_of_filter in Hk as [_ (p & -> & Hp)%list_elem_of_fmap].
  by apply Hnamed.
Qed.

Lemma categoryData_first_occurrence_order_witness :
  map CategoryPerformance.name
      (categoryData
         (map post_in ["News"; "__proto__"; "Events"; "News"; "Stories"; "Events"]))
  = ["News"; "Events"; "Stories"].
Proof.
  rewrite categoryData_first_occurrence_order; [reflexivity|].
  intros p Hp. repeat (apply elem_of_cons in Hp as [->|Hp]; [reflexivity|]).
  by apply elem_of_nil in Hp.
Defined.

(** ** A rejected comment lookup *)

(** [Promise.all] rejects with the reason of the promise that rejects first
    in the settling order. *)
Lemma settle_all_first_rejection {A} (promises : list (Awaited A))
    (pre rest : list nat) (i : nat) (e : QueryError) (values : list (option A)) :
  values !! i = Some None →
  promises !! i = Some (Rejects e) →
  (∀ j e', j ∈ pre → promises !! j ≠ Some (Rejects e')) →
  settle_all promises (pre ++ i :: rest) values (awaited values) = Rejects e.
Proof.
  revert values. induction pre as [|j pre IH]; intros values Hv Hp Hpre; simpl.
  - by rewrite Hv, Hp.
  - assert (j ≠ i) as Hne.
    { intros ->. eapply Hpre; [left|done]. }
    assert (∀ j' e', j' ∈ pre → promises !! j' ≠ Some (Rejects e')) as Hpre'.
    { intros j' e' Hj'. apply Hpre. by right. }
    destruct (values !! j) as [[w|]|] eqn:Hj; [by apply IH| |by apply IH].
    destruct (promises !! j) as [[v|e'|]|] eqn:Hpj; [| |by apply IH..].
    + pose proof (awaited_insert values j v Hj) as Hcount.
      assert (<[j:=Some v]> values !! i = Some None) as Hv'
        by by rewrite list_lookup_insert_ne.
      pose proof (awaited_lookup_pos _ _ Hv') as Hpos.
      rewrite Hcount.
      destruct (awaited (<[j:=Some v]> values)) as [|n] eqn:Hn; [lia|].
      replace (S (S n) - 1) with (S n) by lia. rewrite <- Hn. by apply IH.
    + destruct (Hpre j e'); [left|done].
Qed.

Lemma Promise_all_rejects_first {A} (promises : list (Awaited A))
    (pre rest : list nat) (i : nat) (e : QueryError) :
  promises !! i = Some (Rejects e) →
  (∀ j e', j ∈ pre → promises !! j ≠ Some (Rejects e')) →
  Promise_all promises (pre ++ i :: rest) = Rejects e.
Proof.
  intros Hp Hpre. unfold Promise_all.
  destruct promises as [|p promises]; [done|].
  set (ps := p :: promises) in *.
  rewrite <- (awaited_replicate (A := A) (length ps)) at 2.
  apply settle_all_first_rejection; [|done..].
  apply lookup_replicate. split; [done|]. by eapply lookup_lt_Some.
Qed.

(** X3.  When the reads before the top posts do not reject and a comment
    lookup does, [fetchAnalytics] logs the reason of the lookup that is the
    first to reject in the order in which the lookups settle, and nothing
    else; the top posts and the category performance are left as they were,
    the statistics read before are refreshed, and [loading] is cleared. *)
Theorem first_rejected_lookup_is_logged
    (supabase : Backend) (s : Dashboard) (posts : list BlogPost.t)
    (pre rest : list nat) (i : nat) (p : BlogPost.t) (e : QueryError) :
  throws (blog_posts_status supabase) = false →
  throws (comments_status supabase) = false →
  throws (events_registered supabase) = false →
  recent_published_posts supabase = Data posts →
  completion_order supabase = pre ++ i :: rest →
  posts !! i = Some p →
  approved_comments_of supabase (BlogPost.id p) = Throws e →
  (∀ j q, j ∈ pre → posts !! j = Some q →
          throws (approved_comments_of supabase (BlogPost.id q)) = false) →
  let s' := afterFetch supabase s in
  (fetchAnalytics supabase s).2 = Resolves () ∧
  console s' = console s ++ [e] ∧
  topPosts s' = topPosts s ∧
  categoryPerformance s' = categoryPerformance s ∧
  blogStats s' = shown (blog_posts_status supabase) blogStatsOf (blogStats s) ∧
  commentStats s' = shown (comments_status supabase) commentStatsOf (commentStats s) ∧
  eventStats s' = shown (events_registered supabase) eventStatsOf (eventStats s) ∧
  loading s' = false.
Proof.
  intros Hblog Hcomment Hevent Hposts Horder Hp He Hpre s'. subst s'.
  assert (postsWithComments supabase posts = Rejects e) as Hrej.
  { unfold postsWithComments. rewrite Horder.
    apply Promise_all_rejects_first.
    - change (map ?f ?l) with (f <$> l). rewrite list_lookup_fmap, Hp. simpl.
      unfold countApprovedComments. by rewrite He.
    - intros j e' Hj. change (map ?f ?l) with (f <$> l). rewrite list_lookup_fmap.
      destruct (posts !! j) as [q|] eqn:Hq; [|done]. simpl.
      specialize (Hpre j q Hj Hq). unfold countApprovedComments.
      by destruct (approved_comments_of supabase (BlogPost.id q)). }
  assert (∀ st, fetchTopPosts supabase st = (st, Rejects e)) as Htop.
  { intros st. unfold fetchTopPosts, mbind, Async_bind, await_data, await.
    rewrite Hposts. simpl. by rewrite Hrej. }
  unfold afterFetch, fetchAnalytics, try_catch_finally.
  unfold fetchBlogStats, fetchCommentStats, fetchEventStats.
  unfold mbind, Async_bind, await_data.
  destruct (blog_posts_status supabase) as [blogs| |e1]; [| |done].
  all: destruct (comments_status supabase) as [comments| |e2]; [| |done..].
  all: destruct (events_registered supabase) as [events| |e3]; [| |done..].
  all: simpl; rewrite Htop; simpl; done.
Qed.

Lemma first_rejected_lookup_is_logged_witness :
  console (afterFetch lookups_fail initialDashboard) = [mkQueryError "p5"] ∧
  topPosts (afterFetch lookups_fail initialDashboard) = [] ∧
  blogStats (afterFetch lookups_fail initialDashboard) = BlogStats.mk 7 6 1.
Proof.
  destruct (first_rejected_lookup_is_logged lookups_fail initialDashboard
              (recentPublishedPosts sample_db) [3] [0; 1; 4] 2
              (BlogPost.mk "p5" "Winter drive" "Events" "published" 50)
              (mkQueryError "p5"))
    as (_ & Hlog & Htop & _ & Hblog & _); try reflexivity.
  - intros j q Hj Hq. apply list_elem_of_singleton in Hj as ->.
    vm_compute in Hq. injection Hq as <-. reflexivity.
  - split_and!; [exact Hlog|exact Htop|exact Hblog].
Defined.

(** ** Fetching again, and what is displayed *)

(** The component after [fetchAnalytics], field by field. *)
Lemma afterFetch_fields (supabase : Backend) (s : Dashboard) :
  lookups_settle supabase →
  ∃ errors : list QueryError,
    fetchAnalytics supabase s
    = ({| blogStats :=
            if decide (0 < sections_completed supabase)
            then shown (blog_posts_status supabase) blogStatsOf (blogStats s)
            else blogStats s;
          commentStats :=
            if decide (1 < sections_completed supabase)
            then shown (comments_status supabase) commentStatsOf (commentStats s)
            else commentStats s;
          eventStats :=
            if decide (2 < sections_completed supabase)
            then shown (events_registered supabase) eventStatsOf (eventStats s)
            else eventStats s;
          topPosts :=
            if decide (3 < sections_completed supabase)
            then shown (recent_published_posts supabase) (map (topPostOf supabase))
                       (topPosts s)
            else topPosts s;
          categoryPerformance :=
            if decide (4 < sections_completed supabase)
            then shown (published_posts_category supabase) categoryData
                       (categoryPerformance s)
            else categoryPerformance s;
          loading := false;
          console := console s ++ errors |},
       Resolves ()).
Proof.
  intros Hsettle.
  unfold sections_completed, fetchAnalytics, try_catch_finally.
  unfold fetchBlogStats, fetchCommentStats, fetchEventStats, fetchCategoryPerformance.
  unfold mbind, Async_bind, await_data.
  destruct (blog_posts_status supabase) as [blogs| |e1]; simpl;
    [| |by eexists [_]].
  all: destruct (comments_status supabase) as [comments| |e2]; simpl;
    [| |by eexists [_]..].
  all: destruct (events_registered supabase) as [events| |e3]; simpl;
    [| |by eexists [_]..].
  all: match goal with
       | Hs : lookups_settle ?b |- context [fetchTopPosts ?b ?st] =>
           destruct (fetchTopPosts_cases b st Hs) as [[-> ->]|[-> [e4 ->]]]
       end; simpl; [|by eexists [_]..].
  all: destruct (published_posts_category supabase) as [allPosts| |e5]; simpl;
    first [by eexists [_] | exists []; by rewrite app_nil_r].
Qed.

Lemma shown_shown {A B} (r : Response A) (f : list A → B) (previous : B) :
  shown r f (shown r f previous) = shown r f previous.
Proof. by destruct r. Qed.

(** X4.  Fetching again against the same responses changes none of the
    displayed statistics: after a second run of [fetchAnalytics] the five
    statistics and [loading] are what they were after the first. *)
Theorem fetchAnalytics_refresh_idempotent (supabase : Backend) (s : Dashboard) :
  lookups_settle supabase →
  let s1 := afterFetch supabase s in
  let s2 := afterFetch supabase s1 in
  blogStats s2 = blogStats s1 ∧
  commentStats s2 = commentStats s1 ∧
  eventStats s2 = eventStats s1 ∧
  topPosts s2 = topPosts s1 ∧
  categoryPerformance s2 = categoryPerformance s1 ∧
  loading s2 = loading s1.
Proof.
  intros Hsettle s1 s2. subst s1 s2. unfold afterFetch.
  destruct (afterFetch_fields supabase s Hsettle) as [errors1 ->]. cbn [fst].
  match goal with
  | |- context [fetchAnalytics supabase ?st] =>
      destruct (afterFetch_fields supabase st Hsettle) as [errors2 ->]
  end.
  simpl. split_and!; try done; case_decide; by rewrite ?shown_shown.
Qed.

Lemma fetchAnalytics_refresh_idempotent_witness :
  topPosts (afterFetch (serve sample_db sample_outcome [0; 1; 2; 3; 4])
              (afterFetch (serve sample_db sample_outcome [0; 1; 2; 3; 4])
                          initialDashboard))
  = topPosts (afterFetch (serve sample_db sample_outcome [0; 1; 2; 3; 4])
                         initialDashboard).
Proof.
  apply (fetchAnalytics_refresh_idempotent
           (serve sample_db sample_outcome [0; 1; 2; 3; 4]) initialDashboard).
  apply sample_lookups_settle.
Defined.

(** ** What the dashboard displays *)

Lemma categoryBars_keys (Number_toString : float → string) (s : Dashboard)
    (page : AnalyticsPage) :
  AnalyticsDashboard_render Number_toString s = Page page →
  map CategoryBar.key (rows_of (categoryBars page))
  = map CategoryPerformance.name (categoryPerformance s).
Proof.
  unfold AnalyticsDashboard_render. destruct (loading s); [done|].
  intros [= <-]. simpl. case_decide as Hlen; simpl.
  - by destruct (categoryPerformance s).
  - by rewrite map_map.
Qed.

(** X5.  Once [fetchAnalytics] has run, the dashboard shows the page and
    not the loading message, whatever the reads returned.  On that page the
    category bars have pairwise distinct keys (given that the categories
    held before the fetch were distinct, as they are initially), and the
    rows of the top posts are keyed 0, 1, 2, ... and carry the titles in
    order.  When no read rejected and the posts read returned rows, "No
    posts available" is shown exactly when it returned none; "No category
    data available" is shown exactly when no published post has a category
    other than ["__proto__"], in particular when there is no published
    post. *)
Theorem dashboard_after_fetch (Number_toString : float → string)
    (supabase : Backend) (s : Dashboard) :
  lookups_settle supabase →
  NoDup (map CategoryPerformance.name (categoryPerformance s)) →
  ∃ page : AnalyticsPage,
    AnalyticsDashboard_render Number_toString (afterFetch supabase s) = Page page ∧
    NoDup (map CategoryBar.key (rows_of (categoryBars page))) ∧
    map TopPostRow.key (rows_of (mostEngagedPosts page))
      = seq 0 (length (rows_of (mostEngagedPosts page))) ∧
    map TopPostRow.title (rows_of (mostEngagedPosts page))
      = map TopPost.title (topPosts (afterFetch supabase s)) ∧
    (∀ posts, sections_completed supabase = 5 →
       recent_published_posts supabase = Data posts →
       (mostEngagedPosts page = NothingToShow "No posts available" ↔ posts = [])) ∧
    (∀ allPosts, sections_completed supabase = 5 →
       published_posts_category supabase = Data allPosts →
       (categoryBars page = NothingToShow "No category data available"
        ↔ ∀ p, p ∈ allPosts → BlogPost.category p = "__proto__") ∧
       (allPosts = [] →
        categoryBars page = NothingToShow "No category data available")).
Proof.
  intros Hsettle Hnd.
  destruct (afterFetch_fields supabase s Hsettle) as [errors Hfetch].
  unfold afterFetch. rewrite Hfetch. clear Hfetch. cbn [fst].
  set (n := sections_completed supabase).
  set (tp := if decide (3 < n) then _ else topPosts s).
  set (cp := if decide (4 < n) then _ else categoryPerformance s).
  assert (NoDup (map CategoryPerformance.name cp)) as Hcp.
  { subst cp. destruct (decide (4 < n)); [|done].
    destruct (published_posts_category supabase); try done.
    apply categoryData_views. }
  unfold AnalyticsDashboard_render.
  cbn [topPosts categoryPerformance blogStats commentStats eventStats loading console].
  eexists. split; [reflexivity|]. cbn [categoryBars mostEngagedPosts].
  split_and!.
  - destruct (decide (length cp = 0)); [constructor|]. simpl. by rewrite map_map.
  - destruct (decide (length tp = 0)); [done|]. simpl.
    change (map ?f ?l) with (f <$> l). rewrite fmap_imap, length_imap.
    transitivity (id <$> seq 0 (length tp)); [|apply list_fmap_id].
    rewrite <- (imap_seq_0 tp id). by apply imap_ext.
  - destruct (decide (length tp = 0)) as [Hlen|Hlen]; simpl.
    + by apply length_zero_iff_nil in Hlen as ->.
    + change (map ?f ?l) with (f <$> l). rewrite fmap_imap.
      rewrite <- (imap_const TopPost.title). by apply imap_ext.
  - intros posts Hall Hposts. subst tp. rewrite Hall, Hposts. simpl.
    rewrite length_map. destruct (decide (length posts = 0)) as [Hlen|Hlen].
    + by apply length_zero_iff_nil in Hlen.
    + split; [done|]. by intros ->.
  - intros allPosts Hall Hcat. subst cp. rewrite Hall, Hcat. simpl.
    destruct (decide (length (categoryData allPosts) = 0)) as [Hlen|Hlen].
    + apply length_zero_iff_nil in Hlen. split; [|done].
      split; [intros _; by apply categoryData_nil|done].
    + split; [|by intros ->]. split; [done|].
      intros Hposts. apply categoryData_nil in Hposts. by rewrite Hposts in Hlen.
Qed.

Lemma dashboard_after_fetch_witness :
  ∃ page : AnalyticsPage,
    AnalyticsDashboard_render integer_toString
      (afterFetch (serve sample_db sample_outcome [0; 1; 2; 3; 4]) initialDashboard)
    = Page page ∧
    map CategoryBar.key (rows_of (categoryBars page)) = ["News"; "Events"; "Stories"] ∧
    map TopPostRow.key (rows_of (mostEngagedPosts page)) = [0; 1; 2; 3; 4].
Proof.
  destruct (dashboard_after_fetch integer_toString
              (serve sample_db sample_outcome [0; 1; 2; 3; 4])
              initialDashboard) as (page & Hpage & _ & Hkeys & _).
  - apply sample_lookups_settle.
  - constructor.
  - exists page. split; [exact Hpage|].
    vm_compute in Hpage. injection Hpage as <-. split; reflexivity.
Defined.

(** ** A comment lookup that never settles *)

(** While a promise that fulfils has not settled, [Promise.all] over
    promises that all fulfil stays pending. *)
Lemma settle_all_pending {A} (vs : list A) (order : list nat)
    (values : list (option A)) (j : nat) :
  values !! j = Some None →
  j ∉ order →
  settle_all (map Resolves vs) order values (awaited values) = Pending.
Proof.
  revert values. induction order as [|i order IH]; intros values Hj Hnot; [done|].
  apply not_elem_of_cons in Hnot as [Hne Hnot]. simpl.
  destruct (values !! i) as [[w|]|] eqn:Hi; [by apply IH| |by apply IH].
  change (map ?f ?l) with (f <$> l). rewrite list_lookup_fmap.
  destruct (vs !! i) as [v|]; simpl; [|by apply IH].
  pose proof (awaited_insert values i v Hi) as Hcount.
  assert (<[i:=Some v]> values !! j = Some None) as Hj'
    by by rewrite list_lookup_insert_ne.
  pose proof (awaited_lookup_pos _ _ Hj') as Hpos.
  rewrite Hcount.
  destruct (awaited (<[i:=Some v]> values)) as [|n] eqn:Hn; [lia|].
  replace (S (S n) - 1) with (S n) by lia. rewrite <- Hn. by apply IH.
Qed.

(** X12.  When the reads before the top posts do not reject, no comment
    lookup rejects and one of the lookups never settles, [fetchAnalytics]
    never completes: nothing is logged, the top posts and the category
    performance are not refreshed and [loading] is not cleared, so a
    dashboard that was showing the loading message keeps showing it. *)
Theorem unsettled_lookup_keeps_loading (Number_toString : float → string)
    (supabase : Backend) (s : Dashboard) (posts : list BlogPost.t) (j : nat) :
  throws (blog_posts_status supabase) = false →
  throws (comments_status supabase) = false →
  throws (events_registered supabase) = false →
  recent_published_posts supabase = Data posts →
  lookup_throws supabase = false →
  j < length posts →
  j ∉ completion_order supabase →
  let s' := afterFetch supabase s in
  (fetchAnalytics supabase s).2 = Pending ∧
  loading s' = loading s ∧
  console s' = console s ∧
  topPosts s' = topPosts s ∧
  categoryPerformance s' = categoryPerformance s ∧
  (loading s = true →
   AnalyticsDashboard_render Number_toString s'
   = LoadingAnalytics "Loading analytics...").
Proof.
  intros Hblog Hcomment Hevent Hposts Hlookups Hj Hnot s'. subst s'.
  assert (postsWithComments supabase posts = Pending) as Hpending.
  { unfold postsWithComments. rewrite countApprovedComments_resolves.
    - unfold Promise_all.
      destruct (map Resolves (map (topPostOf supabase) posts)) as [|p ps] eqn:Hps.
      { apply (f_equal length) in Hps. rewrite !length_map in Hps.
        simpl in Hps. lia. }
      rewrite <- Hps, !length_map.
      rewrite <- (awaited_replicate (A := TopPost.t) (length posts)) at 2.
      apply (settle_all_pending _ _ _ j); [|done].
      by apply lookup_replicate.
    - apply existsb_throws_false. unfold lookup_throws in Hlookups.
      by rewrite Hposts in Hlookups. }
  assert (∀ st, fetchTopPosts supabase st = (st, Pending)) as Htop.
  { intros st. unfold fetchTopPosts, mbind, Async_bind, await_data, await.
    rewrite Hposts. simpl. by rewrite Hpending. }
  unfold AnalyticsDashboard_render, afterFetch, fetchAnalytics, try_catch_finally.
  unfold fetchBlogStats, fetchCommentStats, fetchEventStats.
  unfold mbind, Async_bind, await_data.
  destruct (blog_posts_status supabase) as [blogs| |e1]; [| |done].
  all: destruct (comments_status supabase) as [comments| |e2]; [| |done..].
  all: destruct (events_registered supabase) as [events| |e3]; [| |done..].
  all: simpl; rewrite Htop; simpl; split_and!; try done; by intros ->.
Qed.

Lemma unsettled_lookup_keeps_loading_witness :
  (fetchAnalytics (serve sample_db sample_outcome [0; 1; 3; 4]) initialDashboard).2
  = Pending ∧
  AnalyticsDashboard_render integer_toString
    (afterFetch (serve sample_db sample_outcome [0; 1; 3; 4]) initialDashboard)
  = LoadingAnalytics "Loading analytics...".
Proof.
  destruct (unsettled_lookup_keeps_loading integer_toString
              (serve sample_db sample_outcome [0; 1; 3; 4]) initialDashboard
              (recentPublishedPosts sample_db) 2)
    as (Hpending & _ & _ & _ & _ & Hview); try reflexivity.
  - vm_compute. lia.
  - compute_done.
  - split; [exact Hpending|]. by apply Hview.
Defined.

(** * Properties of the registrations view *)

Module RSVPManagementFacts.
Import RSVPManagement.

(** X6.  [fetchRSVPs] clears [loading] whenever its read settles, and not
    before.  A read that resolves without error replaces the registrations
    by its rows (by none when it has no data) and shows no toast.  A read
    that resolves with an error (its data, if any, is ignored) or that
    rejects leaves the registrations as they were, logs the error and shows
    the one "Failed to load RSVPs" toast.  The events and the selection are
    never touched, and the function itself never rejects. *)
Theorem fetchRSVPs_outcome (response : Awaited (Result RSVP.t)) (s : State) :
  let s' := (fetchRSVPs response s).1 in
  events s' = events s ∧
  selectedEvent s' = selectedEvent s ∧
  (∀ e, (fetchRSVPs response s).2 ≠ Rejects e) ∧
  (response = Pending → s' = s ∧ (fetchRSVPs response s).2 = Pending) ∧
  (response ≠ Pending →
     loading s' = false ∧ (fetchRSVPs response s).2 = Resolves ()) ∧
  (∀ d, response = Resolves (mkResult d None) →
        rsvps s' = or_empty d ∧ console s' = console s ∧ toasts s' = toasts s) ∧
  (∀ d e, response = Resolves (mkResult d (Some e)) ∨ response = Rejects e →
          rsvps s' = rsvps s ∧
          console s' = console s ++ [e] ∧
          toasts s' = toasts s ++ [loadFailed]).
Proof.
  intros s'. subst s'.
  destruct response as [[d [e|]]|e|]; cbn; split_and!; try done;
    try (by destruct s); intros; destruct_or?; by simplify_eq.
Qed.

Lemma fetchRSVPs_outcome_witness :
  loading (fetchRSVPs (Rejects (mkQueryError "network")) initialState).1 = false ∧
  toasts (fetchRSVPs (Rejects (mkQueryError "network")) initialState).1 = [loadFailed].
Proof.
  destruct (fetchRSVPs_outcome (Rejects (mkQueryError "network")) initialState)
    as (_ & _ & _ & _ & Hload & _ & Hfail).
  split.
  - by apply Hload.
  - by eapply (Hfail None), or_intror.
Defined.

(** X7.  [fetchEvents] replaces the events by the rows of a read that
    resolves without error (by none when it has no data); a read that
    resolves with an error or rejects leaves the events as they were and
    logs the error.  It never shows a toast, never touches [loading], the
    registrations or the selection, and never rejects. *)
Theorem fetchEvents_outcome (response : Awaited (Result Event.t)) (s : State) :
  let s' := (fetchEvents response s).1 in
  rsvps s' = rsvps s ∧
  selectedEvent s' = selectedEvent s ∧
  loading s' = loading s ∧
  toasts s' = toasts s ∧
  (∀ e, (fetchEvents response s).2 ≠ Rejects e) ∧
  (∀ d, response = Resolves (mkResult d None) →
        events s' = or_empty d ∧ console s' = console s) ∧
  (∀ d e, response = Resolves (mkResult d (Some e)) ∨ response = Rejects e →
          events s' = events s ∧ console s' = console s ++ [e]).
Proof.
  intros s'. subst s'.
  destruct response as [[d [e|]]|e|]; cbn; split_and!; try done;
    intros; destruct_or?; by simplify_eq.
Qed.

Lemma fetchEvents_outcome_witness :
  events (fetchEvents (Resolves (mkResult (Some [Event.mk "e1" "Open day" 10])
                                          (Some (mkQueryError "denied"))))
                      initialState).1 = [] ∧
  console (fetchEvents (Resolves (mkResult (Some [Event.mk "e1" "Open day" 10])
                                           (Some (mkQueryError "denied"))))
                       initialState).1 = [mkQueryError "denied"].
Proof.
  destruct (fetchEvents_outcome
              (Resolves (mkResult (Some [Event.mk "e1" "Open day" 10])
                                  (Some (mkQueryError "denied"))))
              initialState) as (_ & _ & _ & _ & _ & _ & Hfail).
  by eapply Hfail, or_introl.
Defined.

Lemma logged_twice (l : list QueryError) (e1 e2 : QueryError) :
  (l ++ [e1]) ++ [e2] ≡ₚ (l ++ [e2]) ++ [e1].
Proof.
  rewrite <- !app_assoc. apply Permutation_app_head. simpl. apply Permutation_swap.
Qed.

(** X8.  The effect run when the component mounts does nothing for a user
    who is not an admin.  For an admin it runs both fetches, and the state it
    leaves does not depend on which of the two reads settles first, except
    for the order of the entries written to the console; [loading] is
    cleared as soon as the registrations read has settled, whatever the
    events read does. *)
Theorem onMount_order_irrelevant (isAdmin : bool)
    (eventsResponse : Awaited (Result Event.t))
    (rsvpsResponse : Awaited (Result RSVP.t)) (s : State) :
  let a := onMount isAdmin eventsResponse rsvpsResponse true s in
  let b := onMount isAdmin eventsResponse rsvpsResponse false s in
  rsvps a = rsvps b ∧
  events a = events b ∧
  selectedEvent a = selectedEvent b ∧
  loading a = loading b ∧
  toasts a = toasts b ∧
  console a ≡ₚ console b ∧
  (isAdmin = false → a = s ∧ b = s) ∧
  (isAdmin = true → rsvpsResponse ≠ Pending → loading a = false) ∧
  (isAdmin = true → rsvpsResponse = Pending → loading a = loading s).
Proof.
  intros a b. subst a b. unfold onMount. destruct isAdmin; [|done].
  destruct eventsResponse as [[d1 [e1|]]|e1|], rsvpsResponse as [[d2 [e2|]]|e2|];
    cbn; split_and!; try done; apply logged_twice.
Qed.

Lemma onMount_order_irrelevant_witness :
  loading (onMount true Pending (Resolves (mkResult (Some [rsvp_of "r1" "e1"]) None))
                   true initialState) = false.
Proof.
  by apply (onMount_order_irrelevant true Pending
              (Resolves (mkResult (Some [rsvp_of "r1" "e1"]) None)) initialState).
Defined.

Lemma filteredRSVPs_length (event_id : string) (registrations : list RSVP.t) :
  event_id ≠ "all" →
  length (filteredRSVPs event_id registrations)
  = length (filter (λ r, RSVP.event_id r = event_id) registrations).
Proof. intros Hne. unfold filteredRSVPs. by rewrite decide_False. Qed.

(** X9.  When the events offered in the selector have pairwise distinct ids,
    none of which is ["all"], the numbers of registrations shown under the
    single events add up to at most the number shown under "All Events",
    and to exactly that number when and only when every registration
    belongs to one of the offered events. *)
Theorem per_event_counts (s : State) :
  NoDup (map Event.id (events s)) →
  "all" ∉ map Event.id (events s) →
  let shown_under event_id := length (filteredRSVPs event_id (rsvps s)) in
  sum_list (map (λ event, shown_under (Event.id event)) (events s)) ≤ shown_under "all" ∧
  (sum_list (map (λ event, shown_under (Event.id event)) (events s)) = shown_under "all"
   ↔ ∀ r, r ∈ rsvps s → RSVP.event_id r ∈ map Event.id (events s)).
Proof.
  intros Hnd Hall shown_under.
  pose proof (partition_sum_total RSVP.event_id (rsvps s) _ Hnd) as Hpart.
  assert (map (λ event, shown_under (Event.id event)) (events s)
          = (partitionByStatus RSVP.event_id (rsvps s) (map Event.id (events s))).2)
    as ->.
  { unfold partitionByStatus. simpl. rewrite map_map. apply map_ext_in.
    intros event Hevent. subst shown_under. simpl. apply filteredRSVPs_length.
    intros Heq. apply Hall. rewrite <- Heq.
    apply list_elem_of_In in Hevent.
    change (map ?f ?l) with (f <$> l). apply list_elem_of_fmap. by exists event. }
  by replace (shown_under "all")
    with (partitionByStatus RSVP.event_id (rsvps s) (map Event.id (events s))).1.
Qed.

Lemma per_event_counts_witness :
  let s := mkState [rsvp_of "r1" "e1"; rsvp_of "r2" "e2"; rsvp_of "r3" "e1";
                    rsvp_of "r4" "e9"]
                   [Event.mk "e1" "Open day" 10; Event.mk "e2" "Gala" 5]
                   "all" false [] [] in
  length (filteredRSVPs "e1" (rsvps s)) + length (filteredRSVPs "e2" (rsvps s))
  ≤ length (filteredRSVPs "all" (rsvps s)).
Proof.
  intros s.
  destruct (per_event_counts s) as [Hle _].
  - compute_done.
  - compute_done.
  - simpl in Hle. simpl. lia.
Defined.

Section Views.
Variable toLocaleDateString : string → string.

(** X10.  What is displayed once the mount effect has run from the initial
    state.  A user who is not an admin gets the permission notice, and no
    read has filled the component.  For an admin: while the registrations
    read has not settled, the loading notice; when it has resolved with
    rows and without error, one table row per registration, in the order of
    the rows, or "No registrations found" if there is none; when it has
    failed, "No registrations found" together with the failure toast.  The
    events read and the order of settling do not matter for this. *)
Theorem view_after_mount (isAdmin : bool) (eventsResponse : Awaited (Result Event.t))
    (rsvpsResponse : Awaited (Result RSVP.t)) (eventsFirst : bool) :
  let s' := onMount isAdmin eventsResponse rsvpsResponse eventsFirst initialState in
  (isAdmin = false →
     s' = initialState ∧
     render toLocaleDateString isAdmin s'
     = PermissionNotice "You do not have permission to access this page.") ∧
  (isAdmin = true → rsvpsResponse = Pending →
     render toLocaleDateString isAdmin s' = LoadingNotice "Loading registrations...") ∧
  (isAdmin = true → ∀ rows, rsvpsResponse = Resolves (mkResult (Some rows) None) →
     render toLocaleDateString isAdmin s'
     = RegistrationsCard (options s') "all"
         (if decide (length rows = 0)
          then NothingToShow "No registrations found"
          else Rows (map (row toLocaleDateString) rows)) ∧
     toasts s' = []) ∧
  (isAdmin = true → ∀ d e,
     rsvpsResponse = Resolves (mkResult d (Some e)) ∨ rsvpsResponse = Rejects e →
     render toLocaleDateString isAdmin s'
     = RegistrationsCard (options s') "all" (NothingToShow "No registrations found") ∧
     toasts s' = [loadFailed]).
Proof.
  intros s'. subst s'. unfold onMount. split_and!.
  - by intros ->.
  - intros -> ->.
    by destruct eventsFirst, eventsResponse as [[d1 [e1|]]|e1|].
  - intros -> rows ->.
    by destruct eventsFirst, eventsResponse as [[d1 [e1|]]|e1|].
  - intros -> d e [->| ->];
      by destruct eventsFirst, eventsResponse as [[d1 [e1|]]|e1|].
Qed.

(** X11.  In the registrations card, whatever event is selected, the keys
    of the table rows are the ids of the matching registrations in fetched
    order, so they are pairwise distinct when the fetched ids are; and "No
    registrations found" is displayed exactly when no fetched registration
    matches the selection. *)
Theorem table_rows_of_selection (s : State) :
  loading s = false →
  ∃ body : Listing Row.t,
    render toLocaleDateString true s
    = RegistrationsCard (options s) (selectedEvent s) body ∧
    map Row.key (rows_of body)
    = map RSVP.id
          (filter (λ r, selectedEvent s = "all" ∨ RSVP.event_id r = selectedEvent s)
                  (rsvps s)) ∧
    (NoDup (map RSVP.id (rsvps s)) → NoDup (map Row.key (rows_of body))) ∧
    (body = NothingToShow "No registrations found"
     ↔ ∀ r, r ∈ rsvps s →
            selectedEvent s ≠ "all" ∧ RSVP.event_id r ≠ selectedEvent s).
Proof.
  intros Hload. unfold render. rewrite Hload. simpl.
  eexists. split; [reflexivity|].
  set (shown := filteredRSVPs (selectedEvent s) (rsvps s)).
  assert (shown `sublist_of` rsvps s) as Hsub.
  { subst shown. unfold filteredRSVPs. case_decide; [done|apply sublist_filter]. }
  assert (map Row.key (rows_of (if decide (length shown = 0)
                                then NothingToShow "No registrations found"
                                else Rows (map (row toLocaleDateString) shown)))
          = map RSVP.id shown) as Hkeys.
  { destruct (decide (length shown = 0)) as [Hlen|Hlen]; simpl.
    - by apply length_zero_iff_nil in Hlen as ->.
    - by rewrite map_map. }
  rewrite Hkeys.
  assert (map RSVP.id shown `sublist_of` map RSVP.id (rsvps s)) as Hids.
  { change (map ?f ?l) with (f <$> l). by apply fmap_sublist. }
  assert (shown
          = filter (λ r, selectedEvent s = "all" ∨ RSVP.event_id r = selectedEvent s)
                   (rsvps s)) as Hmatching.
  { subst shown. unfold filteredRSVPs.
    destruct (decide (selectedEvent s = "all")) as [Hsel|Hsel].
    - symmetry. apply filter_all. intros r. by left.
    - apply list_filter_iff. intros r. split; [by right|]. by intros [?|?]. }
  split_and!; [by rewrite Hmatching|intros Hnd; by eapply sublist_NoDup|].
  assert (shown = [] ↔ ∀ r, r ∈ rsvps s →
            selectedEvent s ≠ "all" ∧ RSVP.event_id r ≠ selectedEvent s) as Hnone.
  { subst shown. unfold filteredRSVPs.
    destruct (decide (selectedEvent s = "all")) as [Hsel|Hsel].
    - split.
      + intros Hnil r Hr. exfalso. revert Hr. rewrite Hnil. apply not_elem_of_nil.
      + intros Hno. destruct (rsvps s) as [|r l]; [done|].
        by destruct (Hno r (list_elem_of_here _ _)).
    - split.
      + intros Hnil r Hr. split; [done|]. intros Heq.
        assert (r ∈ filter (λ rsvp, RSVP.event_id rsvp = selectedEvent s) (rsvps s))
          as Hin by by apply list_elem_of_filter.
        revert Hin. rewrite Hnil. apply not_elem_of_nil.
      + intros Hno. apply elem_of_nil_inv. intros r Hr.
        apply list_elem_of_filter in Hr as [Heq Hr]. by destruct (Hno r Hr). }
  rewrite <- Hnone. destruct (decide (length shown = 0)) as [Hlen|Hlen].
  - by apply length_zero_iff_nil in Hlen.
  - split; [done|]. intros Hnil. by rewrite Hnil in Hlen.
Qed.
End Views.

Lemma view_after_mount_witness :
  render (λ created_at, created_at) true
         (onMount true Pending
                  (Resolves (mkResult (Some [rsvp_of "r1" "e1"; rsvp_of "r2" "e2"]) None))
                  false initialState)
  = RegistrationsCard
      [SelectItem.mk "all" "All Events"] "all"
      (Rows [Row.mk "r1" "" "" "" "" ""; Row.mk "r2" "" "" "" "" ""]).
Proof.
  destruct (view_after_mount (λ created_at, created_at) true Pending
              (Resolves (mkResult (Some [rsvp_of "r1" "e1"; rsvp_of "r2" "e2"]) None))
              false) as (_ & _ & Hrows & _).
  destruct (Hrows eq_refl _ eq_refl) as [Hview _]. exact Hview.
Defined.

Lemma table_rows_of_selection_witness :
  ∃ body : Listing Row.t,
    render (λ created_at, created_at) true
           (mkState [rsvp_of "r1" "e1"; rsvp_of "r2" "e2"; rsvp_of "r3" "e1"]
                    [] "e1" false [] [])
    = RegistrationsCard [SelectItem.mk "all" "All Events"] "e1" body ∧
    NoDup (map Row.key (rows_of body)).
Proof.
  destruct (table_rows_of_selection (λ created_at, created_at)
              (mkState [rsvp_of "r1" "e1"; rsvp_of "r2" "e2"; rsvp_of "r3" "e1"]
                       [] "e1" false [] []) eq_refl)
    as (body & Hview & _ & Hkeys & _).
  exists body. split; [exact Hview|]. apply Hkeys. compute_done.
Defined.

End RSVPManagementFacts.
